(** * qthreadpool: the parallel aggregation engine

    A shallow embedding of the two programs of the repository:

    - src/main.cc, the first program: one strategy, [Dc.divideAndConquer],
      with split depths 0..32 and a ceiling of 16 partitions, and its
      harness [DcMain.main];
    - src/unnamed/part_000, the second program: [Pool.divideAndConquer]
      with split depths 0..5, [Pool.threadPool] with 1..32 workers, and
      the harness [PoolMain.main].

    Integers.  The C++ [int] is a 32-bit two's complement integer, modelled
    as a [Z] with its wrap-around written out ([Int.wrap]): a sum that
    overflows wraps, and a shift takes its count modulo 32, as the
    compiled programs do.  A division by zero and an index outside the
    vector have no value: they return [None], and an executor that reaches
    one ends in [Undefined].

    Numbers.  The programs are written once, over the operations they
    apply to a [double] (the class [Double]), and read in two arithmetics:

    - [exact_double], the real numbers, where sums are exact.  Every
      statement that compares sums with those of another order of
      evaluation is made in this arithmetic, and says so;
    - [Binary64.double], the IEEE 754 binary64 numbers, with [std::log]
      and [std::exp] left as parameters: any two functions on binary64.
      It is the arithmetic of the counterexamples.

    Statements on the element count, the zero flag, the tasks constructed,
    the early returns and the command line do not depend on the sums; they
    are proved for an arbitrary instance of the class.

    Threads.  A task scans its range into task-local accumulators and then
    adds them to the shared accumulators inside one critical section
    ([std::lock_guard]).  The scan reads only the immutable dataset, so an
    execution is determined by the order in which the tasks take the mutex;
    that order is any permutation of the tasks ([joined]).  An executor is
    therefore a relation between its arguments and its results.  Over the
    exact reals the relation has exactly one result for every argument
    ([run_iff]); over binary64 it can have several. *)

From Stdlib Require Import Floats.
From Stdlib Require Uint63.
From Stdlib Require Import String ZArith List Bool Reals Lia Lra Permutation.
Import ListNotations.

Open Scope Z_scope.

(** ** 32-bit [int] *)

Module Int.

Definition min_int : Z := - 2 ^ 31.
Definition max_int : Z := 2 ^ 31 - 1.

(** Reduction of an integer to the representable range, two's complement. *)
Definition wrap (z : Z) : Z := (z + 2 ^ 31) mod 2 ^ 32 - 2 ^ 31.

Definition add (a b : Z) : Z := wrap (a + b).
Definition sub (a b : Z) : Z := wrap (a - b).
Definition mul (a b : Z) : Z := wrap (a * b).

(** [a / b]: truncating; undefined for [b = 0] and for [min_int / -1]. *)
Definition div (a b : Z) : option Z :=
  if b =? 0 then None
  else if (a =? min_int) && (b =? -1) then None
  else Some (Z.quot a b).

(** [a << n], as the compiled programs evaluate it: the shift instruction
    of the processor takes the count modulo the width of the operand, 32,
    and the result is reduced to [int].  So [1 << 31] is [min_int] and
    [1 << 32] is 1.  (The language defines the shift for the counts 0 to
    31 only, as it defines a signed sum only when it does not overflow;
    the first program accepts the depth 32, and the model follows the
    compiled program in both cases.) *)
Definition shl (a n : Z) : Z := wrap (Z.shiftl a (n mod 32)).

(** [int size = data.size()]: conversion of an unsigned size to [int]. *)
Definition of_size (n : nat) : Z := wrap (Z.of_nat n).

End Int.

(** A small option monad for computations that may be undefined. *)
Definition bind {A B : Type} (x : option A) (f : A -> option B) : option B :=
  match x with
  | Some a => f a
  | None => None
  end.

Notation "x <- e ;; k" := (bind e (fun x => k))
  (at level 61, e at next level, right associativity).
Notation "' ( x , y ) <- e ;; k" := (bind e (fun '(x, y) => k))
  (at level 61, x name, y name, e at next level, right associativity).

(** ** [double]

    The operations the programs apply to a [double]: the conversion of an
    [int] (also that of the literals [0], [0.0] and [2.0], which are
    integers), [+], [-], [/], [==], [std::abs], [std::log], [std::exp]. *)

Class Double (D : Type) : Type := mkDouble {
  d_of_int : Z -> D;
  d_add : D -> D -> D;
  d_sub : D -> D -> D;
  d_div : D -> D -> D;
  d_eqb : D -> D -> bool;
  d_abs : D -> D;
  d_log : D -> D;
  d_exp : D -> D
}.

(** Exact arithmetic: the real numbers. *)
#[export] Instance exact_double : Double R := {|
  d_of_int := IZR;
  d_add := Rplus;
  d_sub := Rminus;
  d_div := Rdiv;
  d_eqb := fun a b => if Req_EM_T a b then true else false;
  d_abs := Rabs;
  d_log := ln;
  d_exp := exp
|}.

(** IEEE 754 binary64, rounding to nearest even: the primitive floats.
    [==] is the IEEE comparison, for which [-0.0 == 0] holds and a NaN
    equals nothing.  The functions [std::log] and [std::exp] of the C
    library are parameters. *)
Module Binary64.

(** An [int] converts exactly. *)
Definition of_int (z : Z) : float :=
  if z <? 0 then PrimFloat.opp (PrimFloat.of_uint63 (Uint63.of_Z (- z)))
  else PrimFloat.of_uint63 (Uint63.of_Z z).

Definition double (log exp : float -> float) : Double float := {|
  d_of_int := of_int;
  d_add := PrimFloat.add;
  d_sub := PrimFloat.sub;
  d_div := PrimFloat.div;
  d_eqb := PrimFloat.eqb;
  d_abs := PrimFloat.abs;
  d_log := log;
  d_exp := exp
|}.

End Binary64.

(** ** Accumulators

    [StatsTask::computeMetrics] keeps five task-local accumulators
    ([local_log_sum], [local_sum], [local_diff_sum], [local_has_zero],
    [local_count]) and the executors keep the five shared ones
    ([global_log_sum], [global_sum], [global_diff_sum], [has_zero],
    [global_count]).  Both sets have the same shape. *)

Record Totals (D : Type) : Type := mkTotals {
  log_sum : D;
  sum : D;
  diff_sum : D;
  has_zero : bool;
  count : Z
}.

Arguments mkTotals {D} _ _ _ _ _.
Arguments log_sum {D} _.
Arguments sum {D} _.
Arguments diff_sum {D} _.
Arguments has_zero {D} _.
Arguments count {D} _.

Definition zero_totals {D : Type} {num : Double D} : Totals D :=
  {| log_sum := d_of_int 0; sum := d_of_int 0; diff_sum := d_of_int 0;
     has_zero := false; count := 0 |}.

(** The test [val == 0]. *)
Definition is_zero {D : Type} {num : Double D} (val : D) : bool := d_eqb val (d_of_int 0).

(** One iteration of the loop of [computeMetrics], on element [val] at
    index [i]. *)
Definition accumulate {D : Type} {num : Double D} (val : D) (i : Z) (l : Totals D) : Totals D :=
  {| log_sum := if is_zero val then log_sum l else d_add (log_sum l) (d_log (d_abs val));
     sum := d_add (sum l) val;
     diff_sum := d_add (diff_sum l) (d_sub val (d_of_int i));
     has_zero := if is_zero val then true else has_zero l;
     count := Int.add (count l) 1 |}.

(** [data[i]]: undefined outside the vector. *)
Definition at_index {D : Type} (data : list D) (i : Z) : option D :=
  if i <? 0 then None else nth_error data (Z.to_nat i).

(** [for (int i = start; i < end; ++i) { ... }]: [fuel] is the number of
    iterations left, [end - start] at the start of the loop. *)
Fixpoint scan {D : Type} {num : Double D} (data : list D) (fuel : nat) (i : Z)
    (l : Totals D) : option (Totals D) :=
  match fuel with
  | O => Some l
  | S fuel' =>
      val <- at_index data i ;;
      scan data fuel' (Int.add i 1) (accumulate val i l)
  end.

(** The critical section of [computeMetrics]. *)
Definition merge {D : Type} {num : Double D} (g l : Totals D) : Totals D :=
  {| log_sum := d_add (log_sum g) (log_sum l);
     sum := d_add (sum g) (sum l);
     diff_sum := d_add (diff_sum g) (diff_sum l);
     has_zero := has_zero g || has_zero l;
     count := Int.add (count g) (count l) |}.

(** A task is the range [[start, end)] it was constructed with. *)
Definition Task : Type := (Z * Z)%type.

(** [StatsTask::computeMetrics], as a transformer of the shared
    accumulators. *)
Definition computeMetrics {D : Type} {num : Double D} (data : list D) (t : Task)
    (g : Totals D) : option (Totals D) :=
  let '(start, end_) := t in
  l <- scan data (Z.to_nat (end_ - start)) start zero_totals ;;
  Some (merge g l).

(** The tasks of one executor call, run in the order in which they take
    the mutex. *)
Fixpoint run_in_order {D : Type} {num : Double D} (data : list D) (order : list Task)
    (g : Totals D) : option (Totals D) :=
  match order with
  | [] => Some g
  | t :: rest =>
      g' <- computeMetrics data t g ;;
      run_in_order data rest g'
  end.

(** All tasks joined ([thread::join], [QThreadPool::waitForDone]): every
    task has run exactly once, in some order. *)
Definition joined {D : Type} {num : Double D} (data : list D) (tasks : list Task)
    (og : option (Totals D)) : Prop :=
  exists order, Permutation tasks order /\ run_in_order data order zero_totals = og.

(** ** Metrics and results of an executor call *)

(** The three output parameters [mode], [stddev] and [sum]. *)
Record Metrics (D : Type) : Type := mkMetrics {
  m_mode : D;
  m_stddev : D;
  m_sum : D
}.

Arguments mkMetrics {D} _ _ _.
Arguments m_mode {D} _.
Arguments m_stddev {D} _.
Arguments m_sum {D} _.

Definition zero_metrics {D : Type} {num : Double D} : Metrics D :=
  {| m_mode := d_of_int 0; m_stddev := d_of_int 0; m_sum := d_of_int 0 |}.

(** What a call that returns has done: the output parameters at the
    return, the lines written to [std::cerr], the tasks constructed, the
    number of threads created (or of runnables handed to the pool), and the
    shared accumulators once every task has merged ([None] when the call
    returns before declaring them). *)
Record Outcome (D : Type) : Type := mkOutcome {
  metrics : Metrics D;
  stderr : list string;
  planned : list Task;
  spawned : nat;
  globals : option (Totals D)
}.

Arguments mkOutcome {D} _ _ _ _ _.
Arguments metrics {D} _.
Arguments stderr {D} _.
Arguments planned {D} _.
Arguments spawned {D} _.
Arguments globals {D} _.

Inductive Result (D : Type) : Type :=
| Undefined : Result D
| Returned : Outcome D -> Result D.

Arguments Undefined {D}.
Arguments Returned {D} _.

(** The last three statements of every executor. *)
Definition final_metrics {D : Type} {num : Double D} (g : Totals D) : Metrics D :=
  {| m_mode := if 0 <? count g then d_div (diff_sum g) (d_of_int (count g))
               else d_of_int 0;
     m_stddev := d_div (sum g) (d_of_int 2);
     m_sum := if has_zero g then d_of_int 0 else d_exp (log_sum g) |}.

(** The early return on [data.empty()]. *)
Definition returned_empty {D : Type} {num : Double D} : Result D :=
  Returned {| metrics := zero_metrics; stderr := []; planned := [];
              spawned := 0; globals := None |}.

(** The early return of the range check. *)
Definition returned_rejected {D : Type} (m0 : Metrics D) (msg : string) : Result D :=
  Returned {| metrics := m0; stderr := [msg]; planned := [];
              spawned := 0; globals := None |}.

(** The return after the join. *)
Definition returned_joined {D : Type} {num : Double D} (tasks : list Task) (threads : nat)
    (og : option (Totals D)) : Result D :=
  match og with
  | None => Undefined
  | Some g => Returned {| metrics := final_metrics g; stderr := []; planned := tasks;
                          spawned := threads; globals := Some g |}
  end.

(** The loop that constructs the tasks, shared by the three executors:
    [for (int i = 0; i < parts; ++i)] with
    [start = i * chunk_size] and
    [end = (i == parts - 1) ? size : start + chunk_size]. *)
Fixpoint make_tasks (fuel : nat) (i parts chunk_size size : Z) : list Task :=
  match fuel with
  | O => []
  | S fuel' =>
      let start := Int.mul i chunk_size in
      let end_ := if i =? Int.sub parts 1 then size else Int.add start chunk_size in
      (start, end_) :: make_tasks fuel' (Int.add i 1) parts chunk_size size
  end.

(** [(splits == 0) ? 1 : (1 << splits)]. *)
Definition parts_of_splits (splits : Z) : Z :=
  if splits =? 0 then 1 else Int.shl 1 splits.

(** ** The first program: src/main.cc *)

Module Dc.

Definition range_error : string := "Error: -d VALOR debe estar entre 0 y 32".

(** The effective part count and chunk size:
    [if (chunk_size == 0 || parts > 16) { parts = std::min(size, 16); ... }]. *)
Definition plan (size splits : Z) : option (Z * Z) :=
  let parts := parts_of_splits splits in
  chunk_size <- Int.div size parts ;;
  if (chunk_size =? 0) || (16 <? parts) then
    let parts' := Z.min size 16 in
    chunk_size' <- Int.div size parts' ;;
    Some (parts', chunk_size')
  else Some (parts, chunk_size).

Definition divideAndConquer {D : Type} {num : Double D} (data : list D) (splits : Z)
    (m0 : Metrics D) (res : Result D) : Prop :=
  match data with
  | [] => res = returned_empty
  | _ :: _ =>
      let size := Int.of_size (length data) in
      if (splits <? 0) || (32 <? splits) then res = returned_rejected m0 range_error
      else
        match plan size splits with
        | None => res = Undefined
        | Some (parts, chunk_size) =>
            let tasks := make_tasks (Z.to_nat parts) 0 parts chunk_size size in
            let threads := if parts =? 1 then O else length tasks in
            exists og, joined data tasks og /\ res = returned_joined tasks threads og
        end
  end.

End Dc.

(** ** The second program: src/unnamed/part_000 *)

Module Pool.

Definition range_error_d : string := "Error: -d VALOR debe estar entre 0 y 5".
Definition range_error_p : string := "Error: -p VALOR debe estar entre 1 y 32".

(** [if (chunk_size == 0) { parts = size; chunk_size = 1; }], for a part
    count [parts] that is [1 << splits] in [divideAndConquer] and
    [num_threads] in [threadPool]. *)
Definition clamp (size parts : Z) : option (Z * Z) :=
  chunk_size <- Int.div size parts ;;
  if chunk_size =? 0 then Some (size, 1) else Some (parts, chunk_size).

Definition plan (size splits : Z) : option (Z * Z) :=
  clamp size (parts_of_splits splits).

Definition divideAndConquer {D : Type} {num : Double D} (data : list D) (splits : Z)
    (m0 : Metrics D) (res : Result D) : Prop :=
  match data with
  | [] => res = returned_empty
  | _ :: _ =>
      let size := Int.of_size (length data) in
      if (splits <? 0) || (5 <? splits) then res = returned_rejected m0 range_error_d
      else
        match plan size splits with
        | None => res = Undefined
        | Some (parts, chunk_size) =>
            let tasks := make_tasks (Z.to_nat parts) 0 parts chunk_size size in
            let threads := if parts =? 1 then O else length tasks in
            exists og, joined data tasks og /\ res = returned_joined tasks threads og
        end
  end.

Definition threadPool {D : Type} {num : Double D} (data : list D) (num_threads : Z)
    (m0 : Metrics D) (res : Result D) : Prop :=
  match data with
  | [] => res = returned_empty
  | _ :: _ =>
      let size := Int.of_size (length data) in
      if (num_threads <? 1) || (32 <? num_threads) then res = returned_rejected m0 range_error_p
      else
        match clamp size num_threads with
        | None => res = Undefined
        | Some (num_threads', chunk_size) =>
            let tasks := make_tasks (Z.to_nat num_threads') 0 num_threads' chunk_size size in
            exists og, joined data tasks og /\ res = returned_joined tasks (length tasks) og
        end
  end.

End Pool.

(** ** The benchmark harness: [main] of both programs

    The command line is taken after [getopt] and [atoi]: one entry per
    option found.  The dataset is the vector of 100 values that [main]
    fills from the generator; the durations are not modelled. *)

Inductive Opt : Type :=
| OptD : Z -> Opt        (* -d VALOR *)
| OptP : Z -> Opt        (* -p VALOR *)
| OptOther : Opt.        (* anything else: getopt answers '?' *)

(** What [main] prints after the runs: the strategy, the count on the line
    "Hilos: ", the three metrics, and the count in the row appended to
    results.csv. *)
Record Report (D : Type) : Type := mkReport {
  rep_strategy : string;
  rep_hilos : Z;
  rep_metrics : Metrics D;
  rep_csv_threads : Z
}.

Arguments mkReport {D} _ _ _ _.
Arguments rep_strategy {D} _.
Arguments rep_hilos {D} _.
Arguments rep_metrics {D} _.
Arguments rep_csv_threads {D} _.

(** [Exit0] also records the outcome of each run, first run first. *)
Inductive MainResult (D : Type) : Type :=
| MainUndefined : MainResult D
| Exit1 : string -> MainResult D
| Exit0 : Report D -> list (Outcome D) -> MainResult D.

Arguments MainUndefined {D}.
Arguments Exit1 {D} _.
Arguments Exit0 {D} _ _.

(** [for (int i = 0; i < RUNS; ++i) { ... }]: every run starts from the
    metrics the previous one left in [mode], [stddev] and [sum]. *)
Fixpoint run_loop {D : Type} (exec : Metrics D -> Result D -> Prop) (runs : nat)
    (m : Metrics D) (history : option (list (Outcome D))) : Prop :=
  match runs with
  | O => history = Some []
  | S runs' =>
      exists res, exec m res /\
        match res with
        | Undefined => history = None
        | Returned o =>
            exists rest, run_loop exec runs' (metrics o) rest /\
                         history = option_map (cons o) rest
        end
  end.

Definition RUNS : nat := 5.

(** The metrics printed are those left by the last run. *)
Definition last_metrics {D : Type} (m0 : Metrics D) (history : list (Outcome D)) : Metrics D :=
  last (map metrics history) m0.

Module DcMain.

(** The option loop: the value of [d_val] at its end, or the message of
    the failing check. *)
Fixpoint parse (opts : list Opt) (d_val : Z) : Z + string :=
  match opts with
  | [] => inl d_val
  | OptD v :: rest =>
      if (v <? 0) || (32 <? v) then inr Dc.range_error else parse rest v
  | _ :: _ => inr "Error: opción inválida, use -d"%string
  end.

Definition main {D : Type} {num : Double D} (opts : list Opt) (data : list D)
    (r : MainResult D) : Prop :=
  match parse opts (-1) with
  | inr msg => r = Exit1 msg
  | inl d_val =>
      if d_val =? -1 then r = Exit1 "Error: debe especificar -d"%string
      else
        exists history,
          run_loop (Dc.divideAndConquer data d_val) RUNS zero_metrics history /\
          match history with
          | Some h =>
              r = Exit0 {| rep_strategy := "DivideConquer"; rep_hilos := d_val;
                           rep_metrics := last_metrics zero_metrics h;
                           rep_csv_threads := parts_of_splits d_val |} h
          | None => r = MainUndefined
          end
  end.

End DcMain.

Module PoolMain.

(** The option loop, on [d_val] and [p_val]. *)
Fixpoint parse (opts : list Opt) (d_val p_val : Z) : (Z * Z) + string :=
  match opts with
  | [] => inl (d_val, p_val)
  | OptD v :: rest =>
      if (v <? 0) || (5 <? v) then inr Pool.range_error_d else parse rest v p_val
  | OptP v :: rest =>
      if (v <? 1) || (32 <? v) then inr Pool.range_error_p else parse rest d_val v
  | OptOther :: rest => parse rest d_val p_val
  end.

Definition main {D : Type} {num : Double D} (opts : list Opt) (data : list D)
    (r : MainResult D) : Prop :=
  match parse opts (-1) (-1) with
  | inr msg => r = Exit1 msg
  | inl (d_val, p_val) =>
      if (d_val =? -1) && (p_val =? -1) then
        r = Exit1 "Error: debe especificar -d o -p"%string
      else if negb (d_val =? -1) && negb (p_val =? -1) then
        r = Exit1 "Error: no puede usar -d y -p juntos"%string
      else if negb (d_val =? -1) then
        exists history,
          run_loop (Pool.divideAndConquer data d_val) RUNS zero_metrics history /\
          match history with
          | Some h =>
              r = Exit0 {| rep_strategy := "DivideConquer";
                           rep_hilos := parts_of_splits d_val;
                           rep_metrics := last_metrics zero_metrics h;
                           rep_csv_threads := parts_of_splits d_val |} h
          | None => r = MainUndefined
          end
      else
        exists history,
          run_loop (Pool.threadPool data p_val) RUNS zero_metrics history /\
          match history with
          | Some h =>
              r = Exit0 {| rep_strategy := "ThreadPool"; rep_hilos := p_val;
                           rep_metrics := last_metrics zero_metrics h;
                           rep_csv_threads := p_val |} h
          | None => r = MainUndefined
          end
  end.

End PoolMain.

(** ** The three executors under one name *)

Inductive Executor : Type :=
| DcDivideAndConquer       (* divideAndConquer of src/main.cc *)
| PoolDivideAndConquer     (* divideAndConquer of src/unnamed/part_000 *)
| PoolThreadPool.          (* threadPool of src/unnamed/part_000 *)

Definition run {D : Type} {num : Double D} (e : Executor) :
    list D -> Z -> Metrics D -> Result D -> Prop :=
  match e with
  | DcDivideAndConquer => Dc.divideAndConquer
  | PoolDivideAndConquer => Pool.divideAndConquer
  | PoolThreadPool => Pool.threadPool
  end.

(** The range each executor checks its parameter against. *)
Definition in_range (e : Executor) (param : Z) : Prop :=
  match e with
  | DcDivideAndConquer => 0 <= param <= 32
  | PoolDivideAndConquer => 0 <= param <= 5
  | PoolThreadPool => 1 <= param <= 32
  end.

(** The message of the range check. *)
Definition range_error (e : Executor) : string :=
  match e with
  | DcDivideAndConquer => Dc.range_error
  | PoolDivideAndConquer => Pool.range_error_d
  | PoolThreadPool => Pool.range_error_p
  end.

(** The effective part count and chunk size of each executor. *)
Definition plan (e : Executor) (size param : Z) : option (Z * Z) :=
  match e with
  | DcDivideAndConquer => Dc.plan size param
  | PoolDivideAndConquer => Pool.plan size param
  | PoolThreadPool => Pool.clamp size param
  end.

(** The ranges of the tasks each executor constructs. *)
Definition partitions (e : Executor) (size param : Z) : option (list Task) :=
  '(parts, chunk_size) <- plan e size param ;;
  Some (make_tasks (Z.to_nat parts) 0 parts chunk_size size).

(** ** The single-threaded reference

    The pass a single thread would make over the whole dataset, in element
    order, with an unbounded element count (written from the
    specification: 4.2 Aggregation Task, applied to the range [[0, N)]). *)

Definition sequential_step {D : Type} {num : Double D} (a : Totals D) (i : Z) (v : D) : Totals D :=
  {| log_sum := if is_zero v then log_sum a else d_add (log_sum a) (d_log (d_abs v));
     sum := d_add (sum a) v;
     diff_sum := d_add (diff_sum a) (d_sub v (d_of_int i));
     has_zero := if is_zero v then true else has_zero a;
     count := count a + 1 |}.

Fixpoint sequential_from {D : Type} {num : Double D} (i : Z) (values : list D)
    (a : Totals D) : Totals D :=
  match values with
  | [] => a
  | v :: rest => sequential_from (i + 1) rest (sequential_step a i v)
  end.

Definition sequential_pass {D : Type} {num : Double D} (data : list D) : Totals D :=
  sequential_from 0 data zero_totals.

(** The metrics of the specification (4.4), from the single-threaded pass. *)
Definition sequential_metrics {D : Type} {num : Double D} (data : list D) : Metrics D :=
  let s := sequential_pass data in
  {| m_mode := if 0 <? count s then d_div (diff_sum s) (d_of_int (count s))
               else d_of_int 0;
     m_stddev := d_div (sum s) (d_of_int 2);
     m_sum := if has_zero s then d_of_int 0 else d_exp (log_sum s) |}.

(** The sum of [ln |v|] over all elements, over the reals. *)
Definition sum_ln_abs (data : list R) : R :=
  fold_left (fun a v => (a + ln (Rabs v))%R) data 0%R.

(** ** Partitions *)

(** [chained lo tasks hi]: the ranges are non-empty, each starts where the
    previous one ends, the first starts at [lo] and the last ends at [hi]. *)
Fixpoint chained (lo : Z) (tasks : list Task) (hi : Z) : Prop :=
  match tasks with
  | [] => lo = hi
  | (start, end_) :: rest => start = lo /\ start < end_ /\ chained end_ rest hi
  end.

Definition task_length (t : Task) : Z := snd t - fst t.

Definition total_length (tasks : list Task) : Z :=
  fold_right (fun t n => task_length t + n) 0 tasks.

Definition covers (t : Task) (k : Z) : Prop := fst t <= k < snd t.

(** Contiguous, non-overlapping, exhaustive over [[0, N)]: every index of
    the dataset is in exactly one range, no range reaches outside, later
    ranges start where earlier ones end, and the lengths add up to [N]. *)
Definition partition_of (tasks : list Task) (N : Z) : Prop :=
  chained 0 tasks N /\
  total_length tasks = N /\
  (forall k, 0 <= k < N <-> exists t, In t tasks /\ covers t k) /\
  (forall i j t u, nth_error tasks i = Some t -> nth_error tasks j = Some u ->
                   (i < j)%nat -> snd t <= fst u).

(** ** The executors as functions

    The result of a call whose tasks take the mutex in the order of their
    construction.  Over the exact reals it is the only result. *)

(** What a task adds to the shared accumulators does not depend on them. *)
Definition local_totals {D : Type} {num : Double D} (data : list D) (t : Task) : option (Totals D) :=
  scan data (Z.to_nat (snd t - fst t)) (fst t) zero_totals.

(** The result of a call that reaches the join, on a given plan. *)
Definition joined_result {D : Type} {num : Double D} (data : list D) (dc : bool)
    (pl : option (Z * Z)) : Result D :=
  match pl with
  | None => Undefined
  | Some (parts, chunk_size) =>
      let tasks := make_tasks (Z.to_nat parts) 0 parts chunk_size
                              (Int.of_size (length data)) in
      returned_joined tasks
        (if dc && (parts =? 1) then O else length tasks)
        (run_in_order data tasks zero_totals)
  end.

(** The result of [run e data param m0] in the order of construction. *)
Definition result_of {D : Type} {num : Double D} (e : Executor) (data : list D) (param : Z)
    (m0 : Metrics D) : Result D :=
  match data with
  | [] => returned_empty
  | _ :: _ =>
      if match e with
         | DcDivideAndConquer => (param <? 0) || (32 <? param)
         | PoolDivideAndConquer => (param <? 0) || (5 <? param)
         | PoolThreadPool => (param <? 1) || (32 <? param)
         end
      then returned_rejected m0 (range_error e)
      else joined_result data
             match e with PoolThreadPool => false | _ => true end
             (plan e (Int.of_size (length data)) param)
  end.

(** ** Conditions used in the statements *)

(** A plan that the task loop turns into non-empty ranges. *)
Definition well_planned (size parts chunk_size : Z) : Prop :=
  1 <= parts /\ 1 <= chunk_size /\ parts * chunk_size <= size.

(** A dataset whose size fits [int]. *)
Definition fits_int {D : Type} (data : list D) : Prop :=
  Z.of_nat (length data) <= Int.max_int.

(** The [n] elements of the dataset from index [a] on. *)
Definition seg {D : Type} (data : list D) (a n : nat) : list D := firstn n (skipn a data).

(** A task whose range lies within the vector. *)
Definition within {D : Type} (data : list D) (t : Task) : Prop :=
  0 <= fst t <= snd t /\ snd t <= Z.of_nat (length data).

(** The elements of the dataset in the range of a task. *)
Definition task_values {D : Type} (data : list D) (t : Task) : list D :=
  seg data (Z.to_nat (fst t)) (Z.to_nat (snd t - fst t)).

(** The dataset has an element for which [val == 0] holds. *)
Definition some_zero {D : Type} {num : Double D} (data : list D) : bool := existsb is_zero data.

(** The merge without the reduction of the count to [int]. *)
Definition plus {D : Type} {num : Double D} (a b : Totals D) : Totals D :=
  {| log_sum := d_add (log_sum a) (log_sum b);
     sum := d_add (sum a) (sum b);
     diff_sum := d_add (diff_sum a) (diff_sum b);
     has_zero := has_zero a || has_zero b;
     count := count a + count b |}.

(** The number of threads created, or of runnables handed to the pool,
    for a given part count. *)
Definition threads_of (e : Executor) (tasks : list Task) : nat :=
  match e with
  | PoolThreadPool => length tasks
  | _ => if (length tasks =? 1)%nat then O else length tasks
  end.

(** The outcomes of [runs] successive calls, each in the order of
    construction. *)
Fixpoint history_of {D : Type} {num : Double D} (e : Executor) (data : list D) (param : Z)
    (runs : nat) (m : Metrics D) : option (list (Outcome D)) :=
  match runs with
  | O => Some []
  | S runs' =>
      match result_of e data param m with
      | Undefined => None
      | Returned o => option_map (cons o) (history_of e data param runs' (metrics o))
      end
  end.

(** The two programs under one name. *)
Inductive Program : Type :=
| FirstProgram      (* src/main.cc *)
| SecondProgram.    (* src/unnamed/part_000 *)

Definition main {D : Type} {num : Double D} (p : Program) :
    list Opt -> list D -> MainResult D -> Prop :=
  match p with
  | FirstProgram => DcMain.main
  | SecondProgram => PoolMain.main
  end.

(** [main] of both programs, every run in the order of construction. *)
Definition dc_main_result {D : Type} {num : Double D} (opts : list Opt) (data : list D) :
    MainResult D :=
  match DcMain.parse opts (-1) with
  | inr msg => Exit1 msg
  | inl d_val =>
      if d_val =? -1 then Exit1 "Error: debe especificar -d"%string
      else
        match history_of DcDivideAndConquer data d_val RUNS zero_metrics with
        | Some h =>
            Exit0 {| rep_strategy := "DivideConquer"; rep_hilos := d_val;
                     rep_metrics := last_metrics zero_metrics h;
                     rep_csv_threads := parts_of_splits d_val |} h
        | None => MainUndefined
        end
  end.

Definition pool_main_result {D : Type} {num : Double D} (opts : list Opt) (data : list D) :
    MainResult D :=
  match PoolMain.parse opts (-1) (-1) with
  | inr msg => Exit1 msg
  | inl (d_val, p_val) =>
      if (d_val =? -1) && (p_val =? -1) then
        Exit1 "Error: debe especificar -d o -p"%string
      else if negb (d_val =? -1) && negb (p_val =? -1) then
        Exit1 "Error: no puede usar -d y -p juntos"%string
      else if negb (d_val =? -1) then
        match history_of PoolDivideAndConquer data d_val RUNS zero_metrics with
        | Some h =>
            Exit0 {| rep_strategy := "DivideConquer";
                     rep_hilos := parts_of_splits d_val;
                     rep_metrics := last_metrics zero_metrics h;
                     rep_csv_threads := parts_of_splits d_val |} h
        | None => MainUndefined
        end
      else
        match history_of PoolThreadPool data p_val RUNS zero_metrics with
        | Some h =>
            Exit0 {| rep_strategy := "ThreadPool"; rep_hilos := p_val;
                     rep_metrics := last_metrics zero_metrics h;
                     rep_csv_threads := p_val |} h
        | None => MainUndefined
        end
  end.

Definition main_result {D : Type} {num : Double D} (p : Program) :
    list Opt -> list D -> MainResult D :=
  match p with
  | FirstProgram => dc_main_result
  | SecondProgram => pool_main_result
  end.

(** The part count an executor asks for before any clamp: [1 << splits]
    (1 for depth 0) or the worker count. *)
Definition requested_parts (e : Executor) (param : Z) : Z :=
  match e with
  | PoolThreadPool => param
  | _ => parts_of_splits param
  end.

(** The part count the clamp falls back to: the ceiling of 16 exists only
    in the first program. *)
Definition clamped_parts (e : Executor) (size : Z) : Z :=
  match e with
  | DcDivideAndConquer => Z.min size 16
  | _ => size
  end.

Definition non_empty (t : Task) : Prop := fst t < snd t.

(** The outcome of a call whose tasks have all merged the totals of the
    single-threaded pass. *)
Definition sequential_outcome {D : Type} {num : Double D} (data : list D) (tasks : list Task)
    (threads : nat) : Outcome D :=
  {| metrics := sequential_metrics data; stderr := []; planned := tasks;
     spawned := threads; globals := Some (sequential_pass data) |}.

(** ** Further definitions

    Closed forms of the metrics, the ceilings on the part count, and the
    timing loop of [main]. *)

(** The sum and the product of the elements, in element order. *)
Definition total (data : list R) : R := fold_left Rplus data 0%R.

Definition product (data : list R) : R := fold_left Rmult data 1%R.

(** The largest part count an executor can end up with: the ceiling of
    the first program, and the largest accepted request in the second. *)
Definition part_cap (e : Executor) : Z :=
  match e with
  | DcDivideAndConquer => 16
  | _ => 32
  end.

(** [long min_duration = std::numeric_limits<long>::max();] and, once per
    run, [min_duration = std::min(min_duration, duration);], on the
    durations the clock has measured, first run first. *)
Definition long_max : Z := 2 ^ 63 - 1.

Definition min_duration (durations : list Z) : Z :=
  fold_left Z.min durations long_max.

(** * Proofs *)

(** ** 32-bit arithmetic *)

Lemma wrap_small z : Int.min_int <= z <= Int.max_int -> Int.wrap z = z.
Proof.
  unfold Int.wrap, Int.min_int, Int.max_int. intros H.
  rewrite Z.mod_small; lia.
Qed.

Lemma wrap_range z : Int.min_int <= Int.wrap z <= Int.max_int.
Proof.
  unfold Int.wrap, Int.min_int, Int.max_int.
  pose proof (Z.mod_pos_bound (z + 2 ^ 31) (2 ^ 32) ltac:(lia)). lia.
Qed.

Lemma wrap_add_l a b : Int.wrap (Int.wrap a + b) = Int.wrap (a + b).
Proof.
  unfold Int.wrap.
  replace ((a + 2 ^ 31) mod 2 ^ 32 - 2 ^ 31 + b + 2 ^ 31)
    with ((a + 2 ^ 31) mod 2 ^ 32 + b) by lia.
  replace (a + b + 2 ^ 31) with ((a + 2 ^ 31) + b) by lia.
  now rewrite Zplus_mod_idemp_l.
Qed.

Lemma wrap_add_r a b : Int.wrap (a + Int.wrap b) = Int.wrap (a + b).
Proof. rewrite (Z.add_comm a), wrap_add_l. f_equal; lia. Qed.

Lemma int_add_comm a b : Int.add a b = Int.add b a.
Proof. unfold Int.add. f_equal; lia. Qed.

Lemma int_add_assoc a b c : Int.add (Int.add a b) c = Int.add a (Int.add b c).
Proof.
  unfold Int.add. rewrite wrap_add_l, wrap_add_r. f_equal; lia.
Qed.

Lemma int_add_small a b :
  Int.min_int <= a + b <= Int.max_int -> Int.add a b = a + b.
Proof. apply wrap_small. Qed.

Lemma int_sub_small a b :
  Int.min_int <= a - b <= Int.max_int -> Int.sub a b = a - b.
Proof. apply wrap_small. Qed.

Lemma int_mul_small a b :
  Int.min_int <= a * b <= Int.max_int -> Int.mul a b = a * b.
Proof. apply wrap_small. Qed.

Lemma of_size_small (n : nat) :
  Z.of_nat n <= Int.max_int -> Int.of_size n = Z.of_nat n.
Proof.
  intros H. apply wrap_small. unfold Int.min_int. lia.
Qed.

Lemma int_div_pos a b :
  0 <= a -> 0 < b -> Int.div a b = Some (a / b).
Proof.
  intros Ha Hb. unfold Int.div.
  destruct (Z.eqb_spec b 0); [lia|].
  destruct (Z.eqb_spec b (-1)); [lia|].
  rewrite andb_false_r. now rewrite Z.quot_div_nonneg by lia.
Qed.

Lemma shl_one n : 0 <= n <= 30 -> Int.shl 1 n = 2 ^ n.
Proof.
  intros H. unfold Int.shl. rewrite Z.mod_small by lia.
  rewrite Z.shiftl_1_l. apply wrap_small.
  assert (2 ^ n <= 2 ^ 30) by (apply Z.pow_le_mono_r; lia).
  assert (0 < 2 ^ n) by (apply Z.pow_pos_nonneg; lia).
  unfold Int.min_int, Int.max_int. lia.
Qed.

Lemma shl_one_31 : Int.shl 1 31 = Int.min_int.
Proof. reflexivity. Qed.

(** The count 32 is the count 0. *)
Lemma shl_one_32 : Int.shl 1 32 = 1.
Proof. reflexivity. Qed.

(** ** The accumulators, in every arithmetic *)

Section AnyArithmetic.

Context {D : Type} {num : Double D}.

Lemma totals_eq (a b : Totals D) :
  log_sum a = log_sum b -> sum a = sum b -> diff_sum a = diff_sum b ->
  has_zero a = has_zero b -> count a = count b -> a = b.
Proof.
  destruct a, b; simpl; intros; subst; reflexivity.
Qed.

Lemma computeMetrics_local (data : list D) t g :
  computeMetrics data t g = option_map (merge g) (local_totals data t).
Proof.
  destruct t as [s e]. unfold computeMetrics, local_totals. simpl.
  now destruct (scan data _ s zero_totals).
Qed.

End AnyArithmetic.

(** ** Over the exact reals the merge order does not matter *)

(** The operations of the exact arithmetic, unfolded. *)
Ltac exact_arith :=
  cbn [d_of_int d_add d_sub d_div d_eqb d_abs d_log d_exp exact_double] in *.

Lemma merge_swap (g a b : Totals R) : merge (merge g a) b = merge (merge g b) a.
Proof.
  apply totals_eq; simpl; exact_arith; try lra.
  - now rewrite <- !orb_assoc, (orb_comm (has_zero a)).
  - now rewrite !int_add_assoc, (int_add_comm (count a)).
Qed.

Lemma computeMetrics_swap (data : list R) t u g :
  (g1 <- computeMetrics data t g ;; computeMetrics data u g1) =
  (g1 <- computeMetrics data u g ;; computeMetrics data t g1).
Proof.
  rewrite !computeMetrics_local.
  destruct (local_totals data t) as [a|] eqn:Ht,
           (local_totals data u) as [b|] eqn:Hu; simpl;
    rewrite ?computeMetrics_local, ?Ht, ?Hu; simpl; try reflexivity.
  now rewrite merge_swap.
Qed.

Lemma run_in_order_perm (data : list R) o1 o2 :
  Permutation o1 o2 -> forall g, run_in_order data o1 g = run_in_order data o2 g.
Proof.
  induction 1 as [|t o1 o2 _ IH|t u o|o1 o2 o3 _ IH1 _ IH2]; intros g; simpl.
  - reflexivity.
  - destruct (computeMetrics data t g); simpl; auto.
  - pose proof (computeMetrics_swap data u t g) as Hs.
    destruct (computeMetrics data u g) as [gu|] eqn:Eu,
             (computeMetrics data t g) as [gt|] eqn:Et; simpl in *.
    + destruct (computeMetrics data t gu) as [g1|] eqn:E1,
               (computeMetrics data u gt) as [g2|] eqn:E2; simpl;
        try congruence.
    + destruct (computeMetrics data t gu); simpl; congruence.
    + destruct (computeMetrics data u gt); simpl; congruence.
    + reflexivity.
  - now rewrite IH1.
Qed.

(** Whatever the order in which the tasks take the mutex, the shared
    accumulators end as if the tasks had run one after the other. *)
Lemma joined_iff (data : list R) tasks og :
  joined data tasks og <-> og = run_in_order data tasks zero_totals.
Proof.
  unfold joined. split.
  - intros (order & Hp & <-). symmetry. now apply run_in_order_perm.
  - intros ->. exists tasks. split; [apply Permutation_refl | reflexivity].
Qed.

(** ** Over the exact reals every executor call has exactly one result *)

Lemma run_iff e (data : list R) param m0 res :
  run e data param m0 res <-> res = result_of e data param m0.
Proof.
  destruct e; cbn [run];
    unfold Dc.divideAndConquer, Pool.divideAndConquer, Pool.threadPool,
           result_of, joined_result;
    (destruct data as [|v data]; [tauto|]); cbn [plan range_error];
    generalize (Int.of_size (length (v :: data))); intros size;
    match goal with |- context [if ?c then _ else _] => destruct c end;
    try tauto;
    match goal with |- context [match ?p with Some _ => _ | None => _ end] =>
      destruct p as [[parts chunk_size]|] end; try tauto; cbn [andb].
  all: split;
    [ intros (og & Hj & ->); apply joined_iff in Hj; now subst og
    | intros ->; eexists; split; [apply joined_iff; reflexivity | reflexivity] ].
Qed.

Lemma run_total e (data : list R) param m0 : exists res, run e data param m0 res.
Proof. exists (result_of e data param m0). now apply run_iff. Qed.

Lemma run_deterministic e (data : list R) param m0 r1 r2 :
  run e data param m0 r1 -> run e data param m0 r2 -> r1 = r2.
Proof. rewrite !run_iff. congruence. Qed.

(** ** The plans *)

Lemma well_planned_div size parts :
  1 <= parts <= size -> well_planned size parts (size / parts).
Proof.
  intros H. unfold well_planned. repeat split; try lia.
  - apply Z.div_le_lower_bound; lia.
  - apply Z.mul_div_le; lia.
Qed.

Lemma int_div_min_int size :
  1 <= size <= Int.max_int -> Int.div size Int.min_int = Some 0.
Proof.
  intros H. unfold Int.div.
  change (Int.min_int =? 0) with false. cbv iota.
  destruct (Z.eqb_spec size Int.min_int) as [E|_];
    [unfold Int.min_int, Int.max_int in *; lia|]. cbn [andb].
  f_equal. change Int.min_int with (- 2 ^ 31).
  rewrite Z.quot_opp_r by lia. rewrite Z.quot_small; [reflexivity|].
  unfold Int.max_int in H. lia.
Qed.

Lemma dc_plan_clamped size :
  1 <= size <= Int.max_int ->
  (chunk_size' <- Int.div size (Z.min size 16) ;; Some (Z.min size 16, chunk_size')) =
  Some (Z.min size 16, size / Z.min size 16).
Proof.
  intros H. now rewrite int_div_pos by lia.
Qed.

Lemma dc_plan_defined size splits :
  1 <= size <= Int.max_int -> 0 <= splits <= 32 ->
  exists parts chunk_size,
    Dc.plan size splits = Some (parts, chunk_size) /\
    well_planned size parts chunk_size /\ parts <= 16 /\ chunk_size = size / parts.
Proof.
  intros Hsize Hs. unfold Dc.plan.
  assert (Hclamp : exists parts chunk_size,
             Some (Z.min size 16, size / Z.min size 16) = Some (parts, chunk_size) /\
             well_planned size parts chunk_size /\ parts <= 16 /\
             chunk_size = size / parts).
  { exists (Z.min size 16), (size / Z.min size 16).
    repeat split; try lia; apply well_planned_div; lia. }
  assert (Hone : parts_of_splits splits = 1 ->
                 exists parts chunk_size,
                   (chunk_size0 <- Int.div size 1 ;;
                    (if (chunk_size0 =? 0) || (16 <? 1)
                     then chunk_size' <- Int.div size (Z.min size 16) ;;
                          Some (Z.min size 16, chunk_size')
                     else Some (1, chunk_size0))) = Some (parts, chunk_size) /\
                   well_planned size parts chunk_size /\ parts <= 16 /\
                   chunk_size = size / parts).
  { intros _. rewrite int_div_pos by lia. cbn [bind]. rewrite Z.div_1_r.
    destruct (Z.eqb_spec size 0); [lia|]. cbn.
    exists 1, size. rewrite Z.div_1_r. unfold well_planned. repeat split; lia. }
  unfold parts_of_splits in *.
  destruct (Z.eqb_spec splits 0) as [->|Hn0]; cbn zeta.
  - now apply Hone.
  - destruct (Z.eq_dec splits 32) as [->|Hn32].
    + rewrite shl_one_32 in *. now apply Hone.
    + destruct (Z.eq_dec splits 31) as [->|Hn31].
      * rewrite shl_one_31. rewrite int_div_min_int by lia.
        cbn [bind Z.eqb orb]. now rewrite dc_plan_clamped by lia.
      * rewrite shl_one by lia.
        assert (Hp : 0 < 2 ^ splits) by (apply Z.pow_pos_nonneg; lia).
        rewrite int_div_pos by lia. cbn [bind].
        destruct ((size / 2 ^ splits =? 0) || (16 <? 2 ^ splits)) eqn:E.
        -- now rewrite dc_plan_clamped by lia.
        -- apply orb_false_iff in E. destruct E as [E1 E2].
           apply Z.eqb_neq in E1. apply Z.ltb_ge in E2.
           assert (0 <= size / 2 ^ splits) by (apply Z.div_pos; lia).
           assert (2 ^ splits * (size / 2 ^ splits) <= size)
             by (apply Z.mul_div_le; lia).
           exists (2 ^ splits), (size / 2 ^ splits).
           unfold well_planned. repeat split; lia.
Qed.

Lemma pool_clamp_defined size parts :
  1 <= size <= Int.max_int -> 1 <= parts ->
  exists parts' chunk_size,
    Pool.clamp size parts = Some (parts', chunk_size) /\
    well_planned size parts' chunk_size /\
    parts' = (if size / parts =? 0 then size else parts) /\
    chunk_size = size / parts'.
Proof.
  intros Hsize Hp. unfold Pool.clamp. rewrite int_div_pos by lia. cbn [bind].
  destruct (Z.eqb_spec (size / parts) 0) as [E|E].
  - exists size, 1. rewrite Z.div_same by lia.
    unfold well_planned. repeat split; lia.
  - assert (0 <= size / parts) by (apply Z.div_pos; lia).
    assert (parts * (size / parts) <= size) by (apply Z.mul_div_le; lia).
    exists parts, (size / parts). unfold well_planned. repeat split; lia.
Qed.

(** The part count requested by a depth of the second program. *)
Lemma parts_of_splits_pos splits :
  0 <= splits <= 5 -> parts_of_splits splits = 2 ^ splits /\ 1 <= 2 ^ splits <= 32.
Proof.
  intros Hs.
  assert (2 ^ splits <= 2 ^ 5) by (apply Z.pow_le_mono_r; lia).
  assert (0 < 2 ^ splits) by (apply Z.pow_pos_nonneg; lia).
  change (2 ^ 5) with 32 in *.
  split; [|lia]. unfold parts_of_splits.
  destruct (Z.eqb_spec splits 0) as [->|Hn]; [reflexivity | apply shl_one; lia].
Qed.

Lemma pool_plan_defined size splits :
  1 <= size <= Int.max_int -> 0 <= splits <= 5 ->
  exists parts chunk_size,
    Pool.plan size splits = Some (parts, chunk_size) /\
    well_planned size parts chunk_size /\ chunk_size = size / parts.
Proof.
  intros Hsize Hs. unfold Pool.plan.
  destruct (parts_of_splits_pos splits Hs) as (-> & Hp).
  destruct (pool_clamp_defined size (2 ^ splits) Hsize ltac:(lia))
    as (p & c & -> & Hw & _ & Hc).
  now exists p, c.
Qed.

Lemma plan_defined e size param :
  1 <= size <= Int.max_int -> in_range e param ->
  exists parts chunk_size,
    plan e size param = Some (parts, chunk_size) /\
    well_planned size parts chunk_size.
Proof.
  intros Hsize Hr. destruct e; cbn in *.
  - destruct (dc_plan_defined size param Hsize Hr) as (p & c & H & Hw & _).
    now exists p, c.
  - destruct (pool_plan_defined size param Hsize Hr) as (p & c & H & Hw & _).
    now exists p, c.
  - destruct (pool_clamp_defined size param Hsize ltac:(lia)) as (p & c & H & Hw & _).
    now exists p, c.
Qed.

(** ** The task loop *)

Lemma make_tasks_chained size parts chunk_size :
  well_planned size parts chunk_size -> size <= Int.max_int ->
  forall fuel i,
    (1 <= fuel)%nat -> 0 <= i -> Z.of_nat fuel = parts - i ->
    chained (i * chunk_size) (make_tasks fuel i parts chunk_size size) size.
Proof.
  intros (Hp & Hc & Hpc) Hmax.
  unfold Int.max_int, Int.min_int in *.
  induction fuel as [|fuel IH]; intros i Hf Hi Hfi; [lia|].
  cbn [make_tasks].
  assert (Hic : 0 <= i * chunk_size) by nia.
  assert (Hle : (i + 1) * chunk_size <= parts * chunk_size) by nia.
  rewrite int_mul_small by (unfold Int.max_int, Int.min_int; nia).
  rewrite int_sub_small by (unfold Int.max_int, Int.min_int; nia).
  rewrite int_add_small by (unfold Int.max_int, Int.min_int; nia).
  destruct (Z.eqb_spec i (parts - 1)) as [E|E].
  - assert (fuel = O) by lia. subst fuel. cbn [chained make_tasks].
    repeat split; nia.
  - rewrite int_add_small by (unfold Int.max_int, Int.min_int; nia).
    cbn [chained]. repeat split; try nia.
    replace (i * chunk_size + chunk_size) with ((i + 1) * chunk_size) by lia.
    apply IH; lia.
Qed.

Lemma make_tasks_length fuel i parts chunk_size size :
  length (make_tasks fuel i parts chunk_size size) = fuel.
Proof.
  revert i. induction fuel; intros i; cbn; [reflexivity|]. now rewrite IHfuel.
Qed.

Lemma chained_le lo tasks hi : chained lo tasks hi -> lo <= hi.
Proof.
  revert lo. induction tasks as [|[s e] rest IH]; intros lo; cbn.
  - lia.
  - intros (-> & Hlt & Hrest). apply IH in Hrest. lia.
Qed.

Lemma chained_length lo tasks hi :
  chained lo tasks hi -> total_length tasks = hi - lo.
Proof.
  revert lo. induction tasks as [|[s e] rest IH]; intros lo; cbn.
  - lia.
  - intros (-> & Hlt & Hrest). apply IH in Hrest.
    unfold total_length in Hrest. rewrite Hrest. unfold task_length. cbn. lia.
Qed.

Lemma chained_covers lo tasks hi :
  chained lo tasks hi ->
  forall k, lo <= k < hi <-> exists t, In t tasks /\ covers t k.
Proof.
  revert lo. induction tasks as [|[s e] rest IH]; intros lo; cbn [chained].
  - intros <- k. split; [lia|]. intros (t & [] & _).
  - intros (-> & Hlt & Hrest) k.
    pose proof (chained_le _ _ _ Hrest) as Hle.
    specialize (IH e Hrest k). split.
    + intros Hk. destruct (Z.lt_ge_cases k e) as [Hke|Hke].
      * exists (lo, e). split; [now left|]. unfold covers. cbn. lia.
      * destruct IH as [IH _]. destruct (IH ltac:(lia)) as (t & Hin & Hc).
        exists t. split; [now right | exact Hc].
    + intros (t & [<-|Hin] & Hc).
      * unfold covers in Hc. cbn in Hc. lia.
      * destruct IH as [_ IH]. specialize (IH (ex_intro _ t (conj Hin Hc))). lia.
Qed.

Lemma chained_from lo tasks hi :
  chained lo tasks hi -> forall t, In t tasks -> lo <= fst t /\ snd t <= hi.
Proof.
  revert lo. induction tasks as [|[s e] rest IH]; intros lo; cbn [chained].
  - intros _ t [].
  - intros (-> & Hlt & Hrest) t [<-|Hin].
    + cbn. pose proof (chained_le _ _ _ Hrest). lia.
    + specialize (IH e Hrest t Hin). lia.
Qed.

Lemma chained_ordered lo tasks hi :
  chained lo tasks hi ->
  forall i j t u, nth_error tasks i = Some t -> nth_error tasks j = Some u ->
                  (i < j)%nat -> snd t <= fst u.
Proof.
  revert lo. induction tasks as [|[s e] rest IH]; intros lo; cbn [chained].
  - intros _ i j t u Hi. destruct i; discriminate.
  - intros (-> & Hlt & Hrest) i j t u Hi Hj Hij.
    destruct j as [|j]; [lia|]. cbn in Hj.
    destruct i as [|i]; cbn in Hi.
    + injection Hi as <-. cbn.
      apply nth_error_In in Hj. now apply (chained_from _ _ _ Hrest).
    + apply (IH e Hrest i j t u Hi Hj). lia.
Qed.

Lemma chained_non_empty lo tasks hi : chained lo tasks hi -> Forall non_empty tasks.
Proof.
  revert lo. induction tasks as [|[s e] rest IH]; intros lo; cbn [chained].
  - constructor.
  - intros (-> & Hlt & Hrest). constructor; [exact Hlt | now apply (IH e)].
Qed.

Lemma chained_partition tasks N : chained 0 tasks N -> partition_of tasks N.
Proof.
  intros H. unfold partition_of. split; [exact H|]. split; [|split].
  - rewrite (chained_length _ _ _ H). lia.
  - now apply chained_covers.
  - now apply (chained_ordered _ _ _ H).
Qed.

Lemma planned_tasks_chained size parts chunk_size :
  well_planned size parts chunk_size -> size <= Int.max_int ->
  chained 0 (make_tasks (Z.to_nat parts) 0 parts chunk_size size) size.
Proof.
  intros Hw Hmax.
  change 0 with (0 * chunk_size) at 1.
  apply make_tasks_chained; try assumption; destruct Hw; lia.
Qed.

(** Every executor, for every dataset size from 1 to the largest [int] and
    every parameter of its range, constructs tasks whose ranges partition
    [[0, N)]. *)
Lemma partitions_cover e size param :
  1 <= size <= Int.max_int -> in_range e param ->
  exists tasks, partitions e size param = Some tasks /\ partition_of tasks size.
Proof.
  intros Hsize Hr.
  destruct (plan_defined e size param Hsize Hr) as (p & c & Hplan & Hw).
  unfold partitions. rewrite Hplan. cbn [bind].
  eexists. split; [reflexivity|].
  apply chained_partition, planned_tasks_chained; [assumption | lia].
Qed.

(** The lengths of the tasks, and whether a task satisfies a test, do not
    depend on the order of the tasks. *)
Lemma total_length_perm o1 o2 :
  Permutation o1 o2 -> total_length o1 = total_length o2.
Proof.
  unfold total_length. induction 1; cbn [fold_right]; lia.
Qed.

Lemma existsb_perm {A : Type} (f : A -> bool) o1 o2 :
  Permutation o1 o2 -> existsb f o1 = existsb f o2.
Proof.
  induction 1 as [|x o1 o2 _ IH|x y o|o1 o2 o3 _ IH1 _ IH2]; cbn [existsb].
  - reflexivity.
  - now rewrite IH.
  - now rewrite !orb_assoc, (orb_comm (f y)).
  - congruence.
Qed.

(** ** Segments of the dataset *)

Section Segments.

Context {A : Type}.

Lemma skipn_nth_error (data : list A) a v :
  nth_error data a = Some v -> skipn a data = v :: skipn (S a) data.
Proof.
  revert data. induction a as [|a IH]; intros [|x data] H; try discriminate.
  - now injection H as ->.
  - cbn in H. cbn [skipn]. now apply IH.
Qed.

Lemma seg_cons (data : list A) a n v :
  nth_error data a = Some v -> seg data a (S n) = v :: seg data (S a) n.
Proof.
  intros H. unfold seg. now rewrite (skipn_nth_error _ _ _ H).
Qed.

Lemma seg_app (data : list A) a n m :
  seg data a (n + m) = seg data a n ++ seg data (a + n) m.
Proof.
  unfold seg. rewrite (Nat.add_comm a n), <- skipn_skipn.
  generalize (skipn a data) as l. clear.
  induction n as [|n IH]; intros l; cbn; [reflexivity|].
  destruct l as [|x l]; cbn.
  - now rewrite firstn_nil.
  - now rewrite IH.
Qed.

Lemma seg_length (data : list A) a n :
  (a + n <= length data)%nat -> length (seg data a n) = n.
Proof.
  intros H. unfold seg. rewrite length_firstn, length_skipn. lia.
Qed.

Lemma seg_all (data : list A) : seg data 0 (length data) = data.
Proof. unfold seg. cbn. apply firstn_all. Qed.

End Segments.
(** ** The single-threaded pass, in every arithmetic *)

Section SequentialPass.

Context {D : Type} {num : Double D}.

Lemma sequential_from_app (xs ys : list D) :
  forall i a, sequential_from i (xs ++ ys) a =
              sequential_from (i + Z.of_nat (length xs)) ys (sequential_from i xs a).
Proof.
  induction xs as [|v xs IH]; intros i a; cbn [app sequential_from length].
  - f_equal. lia.
  - rewrite IH. f_equal. lia.
Qed.

Lemma sequential_from_count (values : list D) :
  forall i a, count (sequential_from i values a) = count a + Z.of_nat (length values).
Proof.
  induction values as [|v rest IH]; intros i a; cbn [sequential_from length].
  - lia.
  - rewrite IH. cbn. lia.
Qed.

Lemma count_sequential_pass (data : list D) :
  count (sequential_pass data) = Z.of_nat (length data).
Proof. unfold sequential_pass. now rewrite sequential_from_count. Qed.

(** The flag ends set exactly when it was set or some element is zero. *)
Lemma sequential_from_some_zero (values : list D) :
  forall i a, has_zero (sequential_from i values a) = has_zero a || some_zero values.
Proof.
  unfold some_zero.
  induction values as [|v rest IH]; intros i a; cbn [sequential_from existsb].
  - now rewrite orb_false_r.
  - rewrite IH. cbn [sequential_step has_zero].
    destruct (is_zero v); cbn [orb]; [now rewrite orb_true_r | reflexivity].
Qed.

(** While the counts stay within [int], the loop body and the critical
    section are those of the reference. *)
Lemma accumulate_sequential (v : D) i l :
  Int.min_int <= count l + 1 <= Int.max_int ->
  accumulate v i l = sequential_step l i v.
Proof.
  intros H. unfold accumulate, sequential_step. now rewrite int_add_small.
Qed.

Lemma merge_plus (g l : Totals D) :
  Int.min_int <= count g + count l <= Int.max_int -> merge g l = plus g l.
Proof.
  intros H. unfold merge, plus. now rewrite int_add_small.
Qed.

End SequentialPass.

(** ** A task computes the single-threaded pass over its range *)

Section Dataset.

Context {D : Type} {num : Double D}.

Variable data : list D.
Hypothesis data_fits : fits_int data.

Let size_bound : Z.of_nat (length data) <= 2 ^ 31 - 1.
Proof. exact data_fits. Qed.

Lemma scan_sequential n :
  forall a l,
    (a + n <= length data)%nat ->
    0 <= count l -> count l + Z.of_nat n <= Int.max_int ->
    scan data n (Z.of_nat a) l = Some (sequential_from (Z.of_nat a) (seg data a n) l).
Proof.
  induction n as [|n IH]; intros a l Han Hc0 Hc; [reflexivity|].
  pose proof size_bound as Hb. unfold Int.max_int in Hc.
  cbn [scan]. unfold at_index.
  destruct (Z.ltb_spec (Z.of_nat a) 0); [lia|]. rewrite Nat2Z.id.
  destruct (nth_error data a) as [v|] eqn:Hv.
  2:{ apply nth_error_None in Hv. lia. }
  cbn [bind]. rewrite (seg_cons _ _ _ _ Hv). cbn [sequential_from].
  rewrite int_add_small by (unfold Int.min_int, Int.max_int; lia).
  rewrite accumulate_sequential by (unfold Int.min_int, Int.max_int; lia).
  replace (Z.of_nat a + 1) with (Z.of_nat (S a)) by lia.
  apply IH; cbn [count sequential_step]; unfold Int.max_int; lia.
Qed.

Lemma local_totals_sequential s e :
  0 <= s <= e -> e <= Z.of_nat (length data) ->
  local_totals data (s, e) =
  Some (sequential_from s (task_values data (s, e)) zero_totals).
Proof.
  intros Hse He. unfold local_totals, task_values. cbn [fst snd].
  pose proof size_bound as Hb.
  rewrite <- (Z2Nat.id s) at 2 3 by lia.
  apply scan_sequential; [lia | |];
    cbn [count zero_totals]; unfold Int.max_int; lia.
Qed.

(** ** The element count and the zero flag, in every merge order

    Tasks whose ranges lie within the vector, run in any order, add the
    lengths of their ranges to the shared count and set the shared flag
    when one of their ranges holds a zero: integer addition and
    disjunction do not see the order, whatever the arithmetic of the
    sums. *)

Lemma run_in_order_flags order :
  forall g,
    Forall (within data) order ->
    0 <= count g -> count g + total_length order <= Int.max_int ->
    exists g',
      run_in_order data order g = Some g' /\
      count g' = count g + total_length order /\
      has_zero g' =
        has_zero g || existsb (fun t => some_zero (task_values data t)) order.
Proof.
  induction order as [|[s e] rest IH]; intros g Hin Hc0 Hc.
  - exists g. cbn. split; [reflexivity|]. split; [lia | now rewrite orb_false_r].
  - inversion Hin as [|t ts Ht Hrest]; subst. destruct Ht as (Hse & He).
    cbn [fst snd] in Hse, He.
    assert (Hlen : 0 <= total_length rest).
    { clear - Hrest. unfold total_length.
      induction Hrest as [|t ts Ht _ IH]; cbn [fold_right]; [lia|].
      destruct Ht. change (task_length t) with (snd t - fst t). lia. }
    change (total_length ((s, e) :: rest))
      with (task_length (s, e) + total_length rest) in *.
    unfold task_length in *. cbn [fst snd] in *.
    cbn [run_in_order]. rewrite computeMetrics_local.
    rewrite local_totals_sequential by lia. cbn [option_map bind].
    set (L := sequential_from s _ zero_totals).
    assert (HL : count L = e - s).
    { unfold L, task_values. cbn [fst snd].
      rewrite sequential_from_count, seg_length; cbn [count zero_totals]; lia. }
    assert (HZ : has_zero L = some_zero (task_values data (s, e))).
    { unfold L. now rewrite sequential_from_some_zero. }
    destruct (IH (merge g L) Hrest) as (g' & Hrun & Hcount & Hzero).
    + cbn [merge count]. rewrite int_add_small;
        unfold Int.min_int, Int.max_int in *; lia.
    + cbn [merge count]. rewrite int_add_small;
        unfold Int.min_int, Int.max_int in *; lia.
    + exists g'. split; [exact Hrun|]. split.
      * rewrite Hcount. cbn [merge count]. rewrite int_add_small;
          unfold Int.min_int, Int.max_int in *; lia.
      * rewrite Hzero. cbn [merge has_zero existsb]. rewrite HZ.
        now rewrite orb_assoc.
Qed.

(** The ranges of chained tasks hold a zero exactly when the range they
    chain does. *)
Lemma chained_some_zero tasks :
  forall lo hi,
    chained lo tasks hi -> 0 <= lo ->
    existsb (fun t => some_zero (task_values data t)) tasks =
    some_zero (seg data (Z.to_nat lo) (Z.to_nat (hi - lo))).
Proof.
  induction tasks as [|[s e] rest IH]; intros lo hi Hch Hlo; cbn [chained] in Hch.
  - subst hi. now rewrite Z.sub_diag.
  - destruct Hch as (-> & Hlt & Hrest).
    pose proof (chained_le _ _ _ Hrest) as Hle.
    cbn [existsb]. rewrite (IH e hi Hrest) by lia.
    unfold task_values, some_zero. cbn [fst snd].
    replace (Z.to_nat (hi - lo)) with (Z.to_nat (e - lo) + Z.to_nat (hi - e))%nat by lia.
    rewrite seg_app, existsb_app.
    replace (Z.to_nat lo + Z.to_nat (e - lo))%nat with (Z.to_nat e) by lia.
    reflexivity.
Qed.

Lemma chained_within tasks lo hi :
  chained lo tasks hi -> 0 <= lo -> hi <= Z.of_nat (length data) ->
  Forall (within data) tasks.
Proof.
  intros Hch Hlo Hhi. apply Forall_forall. intros t Hin.
  pose proof (chained_from _ _ _ Hch t Hin) as Hb.
  pose proof (chained_non_empty _ _ _ Hch) as Hne.
  rewrite Forall_forall in Hne. specialize (Hne t Hin).
  unfold within, non_empty in *. lia.
Qed.

(** Tasks that partition the dataset, joined in whatever order, leave the
    size of the dataset in the shared count and the presence of a zero in
    the shared flag. *)
Lemma joined_flags tasks og :
  chained 0 tasks (Z.of_nat (length data)) ->
  joined data tasks og ->
  exists g, og = Some g /\
            count g = Z.of_nat (length data) /\
            has_zero g = some_zero data.
Proof.
  intros Hch (order & Hperm & Hrun).
  pose proof size_bound as Hb.
  pose proof (chained_within _ _ _ Hch ltac:(lia) ltac:(lia)) as Hin.
  pose proof (chained_length _ _ _ Hch) as Hlen.
  destruct (run_in_order_flags order zero_totals) as (g & Hg & Hcount & Hzero).
  - exact (Permutation_Forall Hperm Hin).
  - cbn. lia.
  - rewrite <- (total_length_perm _ _ Hperm), Hlen. cbn [count zero_totals].
    unfold Int.max_int. lia.
  - exists g. split; [congruence|]. split.
    + rewrite Hcount, <- (total_length_perm _ _ Hperm), Hlen.
      cbn [count zero_totals]. lia.
    + rewrite Hzero, <- (existsb_perm _ _ _ Hperm).
      rewrite (chained_some_zero _ _ _ Hch) by lia.
      cbn [has_zero zero_totals orb].
      rewrite Z.sub_0_r, Nat2Z.id. change (Z.to_nat 0) with O.
      now rewrite seg_all.
Qed.

(** Such tasks can be joined: no task reads outside the vector. *)
Lemma joined_exists tasks :
  chained 0 tasks (Z.of_nat (length data)) ->
  exists g, joined data tasks (Some g).
Proof.
  intros Hch. pose proof size_bound as Hb.
  pose proof (chained_within _ _ _ Hch ltac:(lia) ltac:(lia)) as Hin.
  pose proof (chained_length _ _ _ Hch) as Hlen.
  destruct (run_in_order_flags tasks zero_totals Hin) as (g & Hg & _).
  - cbn. lia.
  - rewrite Hlen. cbn [count zero_totals]. unfold Int.max_int. lia.
  - exists g, tasks. split; [apply Permutation_refl | exact Hg].
Qed.

End Dataset.

(** ** Over the exact reals: the algebra of the totals *)

Ltac fields :=
  apply totals_eq;
  cbn [plus merge sequential_step accumulate zero_totals
       log_sum sum diff_sum has_zero count];
  exact_arith.

Lemma plus_zero_r (a : Totals R) : plus a zero_totals = a.
Proof.
  fields; try lra; [apply orb_false_r | lia].
Qed.

Lemma plus_zero_l (a : Totals R) : plus zero_totals a = a.
Proof.
  fields; try lra; [reflexivity | lia].
Qed.

Lemma plus_assoc (a b c : Totals R) : plus (plus a b) c = plus a (plus b c).
Proof.
  fields; try lra; [symmetry; apply orb_assoc | lia].
Qed.

Lemma plus_step (a : Totals R) i v x :
  plus (sequential_step a i v) x = plus a (plus (sequential_step zero_totals i v) x).
Proof.
  fields; destruct (is_zero v); try lra; try lia;
    cbn [orb]; try reflexivity; now rewrite orb_true_r.
Qed.

Lemma sequential_from_plus (values : list R) :
  forall i a, sequential_from i values a = plus a (sequential_from i values zero_totals).
Proof.
  induction values as [|v rest IH]; intros i a; cbn [sequential_from].
  - now rewrite plus_zero_r.
  - rewrite IH, (IH _ (sequential_step zero_totals i v)). apply plus_step.
Qed.

(** ** Over the exact reals: chained tasks compute the single-threaded pass *)

Section ExactDataset.

Variable data : list R.
Hypothesis data_fits : fits_int data.

Let exact_size_bound : Z.of_nat (length data) <= 2 ^ 31 - 1.
Proof. exact data_fits. Qed.

(** Tasks whose ranges are chained from [lo] to [hi], run one after the
    other, add the single-threaded pass over [[lo, hi)] to the shared
    accumulators. *)
Lemma run_chained tasks :
  forall lo hi g,
    chained lo tasks hi -> 0 <= lo -> hi <= Z.of_nat (length data) ->
    0 <= count g -> count g + (hi - lo) <= Int.max_int ->
    run_in_order data tasks g =
    Some (plus g (sequential_from lo (seg data (Z.to_nat lo) (Z.to_nat (hi - lo)))
                                  zero_totals)).
Proof.
  induction tasks as [|[s e] rest IH]; intros lo hi g Hch Hlo Hhi Hc0 Hc;
    cbn [chained] in Hch.
  - subst hi. rewrite Z.sub_diag. cbn. now rewrite plus_zero_r.
  - destruct Hch as (-> & Hlt & Hrest).
    pose proof (chained_le _ _ _ Hrest) as Hle.
    cbn [run_in_order]. rewrite computeMetrics_local.
    rewrite (local_totals_sequential data data_fits) by lia.
    unfold task_values. cbn [fst snd].
    cbn [option_map bind].
    set (L1 := sequential_from lo _ zero_totals).
    assert (HL1 : count L1 = e - lo).
    { unfold L1. rewrite sequential_from_count, seg_length;
        cbn [count zero_totals]; lia. }
    rewrite merge_plus by (unfold Int.min_int, Int.max_int in *; lia).
    rewrite (IH e hi)
      by (try assumption; cbn [plus count]; unfold Int.max_int in *; lia).
    f_equal. rewrite plus_assoc. f_equal.
    replace (Z.to_nat (hi - lo)) with (Z.to_nat (e - lo) + Z.to_nat (hi - e))%nat by lia.
    rewrite seg_app, sequential_from_app, seg_length by lia.
    rewrite (sequential_from_plus _ _ L1).
    replace (lo + Z.of_nat (Z.to_nat (e - lo))) with e by lia.
    replace (Z.to_nat lo + Z.to_nat (e - lo))%nat with (Z.to_nat e) by lia.
    reflexivity.
Qed.

(** Tasks that partition the dataset leave the single-threaded pass in the
    shared accumulators. *)
Lemma run_partition tasks :
  chained 0 tasks (Z.of_nat (length data)) ->
  run_in_order data tasks zero_totals = Some (sequential_pass data).
Proof.
  intros Hch. pose proof exact_size_bound as Hb.
  rewrite (run_chained tasks 0 (Z.of_nat (length data)));
    try assumption; cbn [count zero_totals]; try lia.
  - rewrite Z.sub_0_r, Nat2Z.id. change (Z.to_nat 0) with O.
    now rewrite seg_all, plus_zero_l.
  - unfold Int.max_int. lia.
Qed.

End ExactDataset.
(** ** A call in range, in every arithmetic *)

Section RunAnyArithmetic.

Context {D : Type} {num : Double D}.

Lemma size_in_range (data : list D) :
  data <> [] -> fits_int data -> 1 <= Z.of_nat (length data) <= Int.max_int.
Proof.
  intros Hne Hfit. unfold fits_int in Hfit.
  destruct data; [congruence | cbn [length] in *; lia].
Qed.

(** The early returns. *)
Lemma run_empty e param (m0 : Metrics D) res :
  run e [] param m0 res <-> res = returned_empty.
Proof. destruct e; reflexivity. Qed.

Lemma run_rejected e (data : list D) param m0 res :
  data <> [] -> ~ in_range e param ->
  (run e data param m0 res <-> res = returned_rejected m0 (range_error e)).
Proof.
  intros Hne Hr. destruct data as [|v data]; [congruence|].
  destruct e; cbn [run in_range range_error] in *;
    unfold Dc.divideAndConquer, Pool.divideAndConquer, Pool.threadPool;
    match goal with |- context [(?a <? ?b) || (?c <? ?e)] =>
      destruct (Z.ltb_spec a b); [reflexivity|];
      destruct (Z.ltb_spec c e); [reflexivity | lia]
    end.
Qed.

(** On a non-empty dataset and with a parameter of its range, an executor
    constructs the tasks of its plan, which partition the dataset, and its
    results are the returns after the join of these tasks, one for each
    order in which they can merge. *)
Lemma run_joined e (data : list D) param m0 :
  data <> [] -> fits_int data -> in_range e param ->
  exists tasks,
    partitions e (Z.of_nat (length data)) param = Some tasks /\
    chained 0 tasks (Z.of_nat (length data)) /\
    forall res,
      run e data param m0 res <->
      exists og, joined data tasks og /\
                 res = returned_joined tasks (threads_of e tasks) og.
Proof.
  intros Hne Hfit Hr.
  pose proof (size_in_range data Hne Hfit) as Hsize.
  destruct (plan_defined e _ param Hsize Hr) as (p & c & Hplan & Hw).
  pose proof (planned_tasks_chained _ _ _ Hw (proj2 Hsize)) as Hch.
  exists (make_tasks (Z.to_nat p) 0 p c (Z.of_nat (length data))).
  split; [unfold partitions; now rewrite Hplan|]. split; [exact Hch|].
  intros res.
  assert (Hthreads : threads_of e (make_tasks (Z.to_nat p) 0 p c (Z.of_nat (length data))) =
                     match e with
                     | PoolThreadPool => Z.to_nat p
                     | _ => if p =? 1 then O else Z.to_nat p
                     end).
  { unfold threads_of. rewrite make_tasks_length. destruct Hw as (Hp & _).
    destruct e; try reflexivity;
      (destruct (Z.eqb_spec p 1) as [->|Hp1]; [reflexivity|];
       destruct (Nat.eqb_spec (Z.to_nat p) 1); [lia | reflexivity]). }
  rewrite Hthreads.
  destruct data as [|v data]; [congruence|].
  set (d := v :: data) in *.
  destruct e; cbn [run plan in_range] in *;
    unfold Dc.divideAndConquer, Pool.divideAndConquer, Pool.threadPool;
    fold d; rewrite of_size_small by apply Hsize;
    match goal with |- context [(?a <? ?b) || (?c <? ?e)] =>
      destruct (Z.ltb_spec a b); [lia|]; destruct (Z.ltb_spec c e); [lia|]
    end; cbn [orb]; rewrite Hplan; cbv zeta; rewrite ?make_tasks_length;
    reflexivity.
Qed.

(** Every such call returns, and whatever the order in which its tasks
    merge, it returns the final metrics of shared accumulators whose count
    is the size of the dataset and whose flag tells whether the dataset
    holds a zero. *)
Lemma run_flags e (data : list D) param m0 :
  data <> [] -> fits_int data -> in_range e param ->
  (exists o, run e data param m0 (Returned o)) /\
  forall res,
    run e data param m0 res ->
    exists o g,
      res = Returned o /\ globals o = Some g /\
      metrics o = final_metrics g /\ stderr o = [] /\
      partitions e (Z.of_nat (length data)) param = Some (planned o) /\
      spawned o = threads_of e (planned o) /\
      count g = Z.of_nat (length data) /\
      has_zero g = some_zero data.
Proof.
  intros Hne Hfit Hr.
  destruct (run_joined e data param m0 Hne Hfit Hr) as (tasks & Hp & Hch & Hrun).
  split.
  - destruct (joined_exists data Hfit tasks Hch) as (g & Hj).
    eexists. apply Hrun. exists (Some g). split; [exact Hj | reflexivity].
  - intros res H. apply Hrun in H. destruct H as (og & Hj & ->).
    destruct (joined_flags data Hfit tasks og Hch Hj) as (g & -> & Hc & Hz).
    do 2 eexists. cbn [returned_joined].
    split; [reflexivity|]. cbn [globals metrics stderr planned spawned].
    repeat split; assumption.
Qed.

(** A single task can merge in one order only. *)
Lemma joined_single (data : list D) t og :
  joined data [t] og <-> og = computeMetrics data t zero_totals.
Proof.
  unfold joined. split.
  - intros (order & Hperm & <-). apply Permutation_length_1_inv in Hperm.
    subst order. cbn [run_in_order]. now destruct (computeMetrics data t zero_totals).
  - intros ->. exists [t]. split; [apply Permutation_refl|].
    cbn [run_in_order]. now destruct (computeMetrics data t zero_totals).
Qed.

(** So a call that plans a single task has one result, in every
    arithmetic. *)
Lemma run_single_task e (data : list D) param m0 t r1 r2 :
  data <> [] -> fits_int data -> in_range e param ->
  partitions e (Z.of_nat (length data)) param = Some [t] ->
  run e data param m0 r1 -> run e data param m0 r2 -> r1 = r2.
Proof.
  intros Hne Hfit Hr Hp H1 H2.
  destruct (run_joined e data param m0 Hne Hfit Hr) as (tasks & Hp' & _ & Hrun).
  rewrite Hp in Hp'. injection Hp' as <-.
  apply Hrun in H1, H2.
  destruct H1 as (og1 & Hj1 & ->), H2 as (og2 & Hj2 & ->).
  apply joined_single in Hj1, Hj2. congruence.
Qed.

End RunAnyArithmetic.

(** ** Over the exact reals the executors compute the single-threaded metrics *)

Lemma final_metrics_sequential (data : list R) :
  final_metrics (sequential_pass data) = sequential_metrics data.
Proof. reflexivity. Qed.

Lemma result_of_in_range e (data : list R) param m0 :
  data <> [] -> fits_int data -> in_range e param ->
  exists tasks,
    partitions e (Z.of_nat (length data)) param = Some tasks /\
    partition_of tasks (Z.of_nat (length data)) /\
    result_of e data param m0 =
    Returned (sequential_outcome data tasks (threads_of e tasks)).
Proof.
  intros Hne Hfit Hr.
  destruct (run_joined e data param m0 Hne Hfit Hr) as (tasks & Hp & Hch & Hrun).
  exists tasks. split; [exact Hp|]. split; [now apply chained_partition|].
  symmetry. apply run_iff, Hrun.
  exists (Some (sequential_pass data)). split.
  - apply joined_iff. symmetry. now apply run_partition.
  - reflexivity.
Qed.

(** Every run on a non-empty dataset with a parameter of the range returns
    the single-threaded metrics after having merged the single-threaded
    totals. *)
Lemma run_in_range e (data : list R) param m0 res :
  data <> [] -> fits_int data -> in_range e param ->
  run e data param m0 res ->
  exists tasks,
    partitions e (Z.of_nat (length data)) param = Some tasks /\
    partition_of tasks (Z.of_nat (length data)) /\
    res = Returned (sequential_outcome data tasks (threads_of e tasks)).
Proof.
  intros Hne Hfit Hr Hrun. apply run_iff in Hrun. subst res.
  now apply result_of_in_range.
Qed.

(** Such a call has that result and no other. *)
Lemma run_in_range_unique e (data : list R) param m0 :
  data <> [] -> fits_int data -> in_range e param ->
  exists tasks,
    partitions e (Z.of_nat (length data)) param = Some tasks /\
    partition_of tasks (Z.of_nat (length data)) /\
    run e data param m0
        (Returned (sequential_outcome data tasks (threads_of e tasks))) /\
    forall res,
      run e data param m0 res ->
      res = Returned (sequential_outcome data tasks (threads_of e tasks)).
Proof.
  intros Hne Hfit Hr.
  destruct (result_of_in_range e data param m0 Hne Hfit Hr)
    as (tasks & Hp & Hpart & Hres).
  exists tasks. split; [exact Hp|]. split; [exact Hpart|]. split.
  - apply run_iff. now symmetry.
  - intros res Hrun. apply run_iff in Hrun. congruence.
Qed.

(** The early returns. *)
Lemma result_of_empty e param (m0 : Metrics R) : result_of e [] param m0 = returned_empty.
Proof. reflexivity. Qed.

Lemma result_of_rejected e (data : list R) param m0 :
  data <> [] -> ~ in_range e param ->
  result_of e data param m0 = returned_rejected m0 (range_error e).
Proof.
  intros Hne Hr. unfold result_of. destruct data as [|v data]; [congruence|].
  replace (match e with
           | DcDivideAndConquer => (param <? 0) || (32 <? param)
           | PoolDivideAndConquer => (param <? 0) || (5 <? param)
           | PoolThreadPool => (param <? 1) || (32 <? param)
           end) with true; [reflexivity|].
  symmetry. destruct e; cbn in Hr; apply orb_true_iff;
    match goal with |- (?a <? ?b) = true \/ _ =>
      destruct (Z.ltb_spec a b); [now left | right; apply Z.ltb_lt; lia] end.
Qed.

(** The depth 32 of the first program is the depth 0: [1 << 32] is 1, one
    task over the whole dataset. *)
Lemma dc_plan_32 size : 1 <= size <= Int.max_int -> Dc.plan size 32 = Some (1, size).
Proof.
  intros H. unfold Dc.plan. change (parts_of_splits 32) with 1. cbv zeta.
  rewrite int_div_pos by lia. cbn [bind]. rewrite Z.div_1_r.
  destruct (Z.eqb_spec size 0); [lia | reflexivity].
Qed.

(** ** A result for each merge order *)

Section RunInSomeOrder.

Context {D : Type} {num : Double D}.

(** The return after the tasks have merged in a given order. *)
Lemma run_in_some_order e (data : list D) param m0 tasks order g :
  data <> [] -> fits_int data -> in_range e param ->
  partitions e (Z.of_nat (length data)) param = Some tasks ->
  Permutation tasks order ->
  run_in_order data order zero_totals = Some g ->
  run e data param m0
      (Returned {| metrics := final_metrics g; stderr := []; planned := tasks;
                   spawned := threads_of e tasks; globals := Some g |}).
Proof.
  intros Hne Hfit Hr Hp Hperm Hg.
  destruct (run_joined e data param m0 Hne Hfit Hr) as (tasks' & Hp' & _ & Hrun).
  rewrite Hp in Hp'. injection Hp' as <-.
  apply Hrun. exists (Some g). split; [|reflexivity].
  exists order. split; assumption.
Qed.

(** One more run at the head of a completed loop. *)
Lemma run_loop_cons (exec : Metrics D -> Result D -> Prop) runs m o h :
  exec m (Returned o) -> run_loop exec runs (metrics o) (Some h) ->
  run_loop exec (S runs) m (Some (o :: h)).
Proof.
  intros He Hl. cbn [run_loop]. exists (Returned o). split; [exact He|].
  exists (Some h). split; [exact Hl | reflexivity].
Qed.

End RunInSomeOrder.

(** ** Over the exact reals every call on a dataset that fits returns *)

Lemma in_range_dec e param : {in_range e param} + {~ in_range e param}.
Proof.
  destruct e; cbn [in_range];
    match goal with |- {?a <= _ <= ?b} + {_} =>
      destruct (Z_le_dec a param); [destruct (Z_le_dec param b)|]
    end; (left; lia) || (right; lia).
Qed.

Lemma result_of_returns e (data : list R) param m0 :
  fits_int data -> exists o, result_of e data param m0 = Returned o.
Proof.
  intros Hfit. destruct data as [|v data].
  - eexists. reflexivity.
  - destruct (in_range_dec e param) as [Hr|Hr].
    + destruct (result_of_in_range e (v :: data) param m0) as (tasks & _ & _ & H);
        try assumption; [discriminate|]. eexists. exact H.
    + rewrite result_of_rejected by (assumption || discriminate).
      eexists. reflexivity.
Qed.

(** ** The harness, over the exact reals *)

Lemma run_loop_iff e (data : list R) param runs :
  forall m history,
    run_loop (run e data param) runs m history <->
    history = history_of e data param runs m.
Proof.
  induction runs as [|runs IH]; intros m history; cbn [run_loop history_of].
  - tauto.
  - split.
    + intros (res & Hrun & H). apply run_iff in Hrun. subst res.
      destruct (result_of e data param m) as [|o]; [exact H|].
      destruct H as (rest & Hrest & ->). apply IH in Hrest. now subst rest.
    + intros ->. exists (result_of e data param m). split; [now apply run_iff|].
      destruct (result_of e data param m) as [|o]; [reflexivity|].
      eexists. split; [apply IH; reflexivity | reflexivity].
Qed.

(** A call that starts from the metrics the previous call has left returns
    the same outcome again. *)
Lemma result_of_stable e (data : list R) param m o :
  result_of e data param m = Returned o ->
  result_of e data param (metrics o) = Returned o.
Proof.
  unfold result_of. destruct data as [|v data]; [trivial|].
  match goal with |- context [if ?c then _ else _] => destruct c end; [|trivial].
  intros H. injection H as <-. reflexivity.
Qed.

Lemma history_of_repeat e (data : list R) param runs :
  forall m o,
    result_of e data param m = Returned o ->
    history_of e data param runs m = Some (repeat o runs).
Proof.
  induction runs as [|runs IH]; intros m o H; cbn [history_of repeat].
  - reflexivity.
  - rewrite H. now rewrite (IH _ _ (result_of_stable _ _ _ _ _ H)).
Qed.

Lemma history_of_undefined e (data : list R) param runs m :
  result_of e data param m = Undefined ->
  history_of e data param (S runs) m = None.
Proof. intros H. cbn [history_of]. now rewrite H. Qed.

Lemma history_of_some e (data : list R) param runs m h :
  history_of e data param (S runs) m = Some h ->
  exists o, result_of e data param m = Returned o /\ h = repeat o (S runs).
Proof.
  intros H. destruct (result_of e data param m) as [|o] eqn:E.
  - rewrite history_of_undefined in H by assumption. discriminate.
  - rewrite (history_of_repeat _ _ _ _ _ _ E) in H. injection H as <-. now exists o.
Qed.

Lemma last_metrics_repeat {D : Type} (m0 : Metrics D) o n : last_metrics m0 (repeat o (S n)) = metrics o.
Proof.
  unfold last_metrics. induction n as [|n IH]; [reflexivity|].
  cbn [repeat map] in *. cbn [last]. exact IH.
Qed.

Lemma map_metrics_repeat {D : Type} (o : Outcome D) n : map metrics (repeat o n) = repeat (metrics o) n.
Proof. induction n; cbn; congruence. Qed.

Lemma main_iff p opts (data : list R) r :
  main p opts data r <-> r = main_result p opts data.
Proof.
  destruct p; cbn [main main_result];
    unfold DcMain.main, PoolMain.main, dc_main_result, pool_main_result.
  - destruct (DcMain.parse opts (-1)) as [d_val|msg]; [|tauto].
    destruct (d_val =? -1); [tauto|].
    split.
    + intros (history & Hloop & H).
      apply (run_loop_iff DcDivideAndConquer) in Hloop. subst history.
      destruct (history_of _ _ _ _ _); exact H.
    + intros ->. eexists. split;
        [apply (run_loop_iff DcDivideAndConquer); reflexivity|].
      destruct (history_of _ _ _ _ _); reflexivity.
  - destruct (PoolMain.parse opts (-1) (-1)) as [[d_val p_val]|msg]; [|tauto].
    destruct ((d_val =? -1) && (p_val =? -1)); [tauto|].
    destruct (negb (d_val =? -1) && negb (p_val =? -1)); [tauto|].
    destruct (negb (d_val =? -1)).
    + split.
      * intros (history & Hloop & H).
        apply (run_loop_iff PoolDivideAndConquer) in Hloop. subst history.
        destruct (history_of _ _ _ _ _); exact H.
      * intros ->. eexists. split;
          [apply (run_loop_iff PoolDivideAndConquer); reflexivity|].
        destruct (history_of _ _ _ _ _); reflexivity.
    + split.
      * intros (history & Hloop & H).
        apply (run_loop_iff PoolThreadPool) in Hloop. subst history.
        destruct (history_of _ _ _ _ _); exact H.
      * intros ->. eexists. split;
          [apply (run_loop_iff PoolThreadPool); reflexivity|].
        destruct (history_of _ _ _ _ _); reflexivity.
Qed.

(** A harness that exits normally has run the executor [RUNS] times with
    one and the same outcome, whose metrics it reports. *)
Lemma main_result_exit0 p opts (data : list R) rep h :
  main_result p opts data = Exit0 rep h ->
  exists o, h = repeat o RUNS /\ rep_metrics rep = metrics o.
Proof.
  destruct p; cbn [main_result]; unfold dc_main_result, pool_main_result.
  - destruct (DcMain.parse opts (-1)) as [d_val|msg]; [|discriminate].
    destruct (d_val =? -1); [discriminate|].
    destruct (history_of _ _ _ _ _) as [h'|] eqn:Hh; [|discriminate].
    intros H. injection H as <- <-.
    apply history_of_some in Hh. destruct Hh as (o & _ & ->).
    exists o. split; [reflexivity | apply last_metrics_repeat].
  - destruct (PoolMain.parse opts (-1) (-1)) as [[d_val p_val]|msg]; [|discriminate].
    destruct ((d_val =? -1) && (p_val =? -1)); [discriminate|].
    destruct (negb (d_val =? -1) && negb (p_val =? -1)); [discriminate|].
    destruct (negb (d_val =? -1)).
    + destruct (history_of _ _ _ _ _) as [h'|] eqn:Hh; [|discriminate].
        intros H. injection H as <- <-.
      apply history_of_some in Hh. destruct Hh as (o & _ & ->).
      exists o. split; [reflexivity | apply last_metrics_repeat].
    + destruct (history_of _ _ _ _ _) as [h'|] eqn:Hh; [|discriminate].
      intros H. injection H as <- <-.
      apply history_of_some in Hh. destruct Hh as (o & _ & ->).
      exists o. split; [reflexivity | apply last_metrics_repeat].
Qed.

(** ** Over the exact reals: zero elements and the sum of logarithms *)

Lemma is_zero_true (v : R) : is_zero v = true <-> v = 0%R.
Proof.
  unfold is_zero. exact_arith. destruct (Req_EM_T v 0); split; congruence.
Qed.

Lemma sequential_from_has_zero (values : list R) :
  forall i a, has_zero (sequential_from i values a) = true <->
              has_zero a = true \/ In 0%R values.
Proof.
  induction values as [|v rest IH]; intros i a; cbn [sequential_from In].
  - tauto.
  - rewrite IH. cbn [sequential_step has_zero].
    destruct (is_zero v) eqn:E.
    + apply is_zero_true in E. subst v. tauto.
    + assert (v <> 0%R) by (intros Hv; apply is_zero_true in Hv; congruence).
      split; [intros [H1|H1]; auto | intros [H1|[H1|H1]]; auto; congruence].
Qed.

Lemma has_zero_sequential_pass (data : list R) :
  has_zero (sequential_pass data) = true <-> In 0%R data.
Proof.
  unfold sequential_pass. rewrite sequential_from_has_zero. cbn.
  split; [intros [H|H]; [discriminate | exact H] | auto].
Qed.

Lemma sequential_from_log_sum (values : list R) :
  ~ In 0%R values ->
  forall i a, log_sum (sequential_from i values a) =
              fold_left (fun s v => (s + ln (Rabs v))%R) values (log_sum a).
Proof.
  induction values as [|v rest IH]; intros Hnz i a; cbn [sequential_from fold_left].
  - reflexivity.
  - rewrite IH by (intros H; apply Hnz; now right).
    cbn [sequential_step log_sum].
    destruct (is_zero v) eqn:E; [|reflexivity].
    apply is_zero_true in E. exfalso. apply Hnz. now left.
Qed.

Lemma log_sum_sequential_pass (data : list R) :
  ~ In 0%R data -> log_sum (sequential_pass data) = sum_ln_abs data.
Proof.
  intros H. unfold sequential_pass, sum_ln_abs.
  now rewrite sequential_from_log_sum.
Qed.

(** The product-style metric of the single-threaded pass. *)
Lemma m_sum_sequential (data : list R) :
  (In 0%R data -> m_sum (sequential_metrics data) = 0%R) /\
  (~ In 0%R data -> m_sum (sequential_metrics data) = exp (sum_ln_abs data)).
Proof.
  unfold sequential_metrics. cbn [m_sum]. split; intros H.
  - apply has_zero_sequential_pass in H. now rewrite H.
  - destruct (has_zero (sequential_pass data)) eqn:E.
    + apply has_zero_sequential_pass in E. contradiction.
    + now rewrite log_sum_sequential_pass.
Qed.

(** The sums of the single-threaded pass, field by field, as left folds
    over the dataset in element order. *)
Lemma sequential_from_sum (values : list R) :
  forall i a, sum (sequential_from i values a) = fold_left Rplus values (sum a).
Proof.
  induction values as [|v rest IH]; intros i a; cbn [sequential_from fold_left].
  - reflexivity.
  - now rewrite IH.
Qed.

(** ** The harness on a parameter of the range, over the exact reals *)

Lemma history_in_range e (data : list R) param :
  data <> [] -> fits_int data -> in_range e param ->
  exists tasks,
    partitions e (Z.of_nat (length data)) param = Some tasks /\
    forall runs m0,
      history_of e data param runs m0 =
      Some (repeat (sequential_outcome data tasks (threads_of e tasks)) runs).
Proof.
  intros Hne Hfit Hr.
  destruct (result_of_in_range e data param zero_metrics Hne Hfit Hr)
    as (tasks & Hp & _ & Hres).
  exists tasks. split; [exact Hp|]. intros runs m0.
  apply history_of_repeat.
  destruct (result_of_in_range e data param m0 Hne Hfit Hr)
    as (tasks' & Hp' & _ & Hres').
  rewrite Hp in Hp'. injection Hp' as <-. exact Hres'.
Qed.

Lemma dc_main_in_range d_val (data : list R) :
  data <> [] -> fits_int data -> 0 <= d_val <= 32 ->
  exists tasks,
    partitions DcDivideAndConquer (Z.of_nat (length data)) d_val = Some tasks /\
    dc_main_result [OptD d_val] data =
    Exit0 {| rep_strategy := "DivideConquer"; rep_hilos := d_val;
             rep_metrics := sequential_metrics data;
             rep_csv_threads := parts_of_splits d_val |}
          (repeat (sequential_outcome data tasks
                     (threads_of DcDivideAndConquer tasks)) RUNS).
Proof.
  intros Hne Hfit Hd.
  destruct (history_in_range DcDivideAndConquer data d_val Hne Hfit Hd)
    as (tasks & Hp & Hh).
  exists tasks. split; [exact Hp|].
  unfold dc_main_result. cbn [DcMain.parse].
  destruct (Z.ltb_spec d_val 0); [lia|].
  destruct (Z.ltb_spec 32 d_val); [lia|]. cbn [orb].
  destruct (Z.eqb_spec d_val (-1)); [lia|].
  rewrite Hh. unfold RUNS. now rewrite last_metrics_repeat.
Qed.

(** ** The second program reports the part count in use

    The values that pass the option checks never reach the clamp on the
    100-element dataset, so the count [main] prints and logs is the number
    of tasks of every run. *)

Lemma pool_parse_range opts :
  forall d p d' p',
    PoolMain.parse opts d p = inl (d', p') ->
    (d' = d \/ 0 <= d' <= 5) /\ (p' = p \/ 1 <= p' <= 32).
Proof.
  induction opts as [|[v|v|] opts IH]; intros d p d' p' H; cbn [PoolMain.parse] in H.
  - injection H as <- <-. auto.
  - destruct (Z.ltb_spec v 0) as [_|Hlo]; [discriminate|].
    destruct (Z.ltb_spec 5 v) as [_|Hhi]; [discriminate|]. cbn [orb] in H.
    apply IH in H. destruct H as ([->|Hd] & Hp); split; auto; right; lia.
  - destruct (Z.ltb_spec v 1) as [_|Hlo]; [discriminate|].
    destruct (Z.ltb_spec 32 v) as [_|Hhi]; [discriminate|]. cbn [orb] in H.
    apply IH in H. destruct H as (Hd & [->|Hp]); split; auto; right; lia.
  - now apply IH.
Qed.

Lemma pool_partitions_100_depth d_val tasks :
  0 <= d_val <= 5 ->
  partitions PoolDivideAndConquer 100 d_val = Some tasks ->
  Z.of_nat (length tasks) = parts_of_splits d_val.
Proof.
  intros Hd Hp.
  assert (d_val = 0 \/ d_val = 1 \/ d_val = 2 \/ d_val = 3 \/ d_val = 4 \/ d_val = 5)
    as [->|[->|[->|[->|[->| ->]]]]] by lia;
    vm_compute in Hp; injection Hp as <-; reflexivity.
Qed.

Lemma pool_partitions_100_workers p_val tasks :
  1 <= p_val <= 32 ->
  partitions PoolThreadPool 100 p_val = Some tasks ->
  Z.of_nat (length tasks) = p_val.
Proof.
  intros Hp H. unfold partitions in H. cbn [plan] in H.
  destruct (pool_clamp_defined 100 p_val) as (p' & c & Hc & _ & Hp' & _);
    [unfold Int.max_int; lia | lia |].
  rewrite Hc in H. cbn [bind] in H. injection H as <-.
  rewrite make_tasks_length.
  assert (1 <= 100 / p_val) by (apply Z.div_le_lower_bound; lia).
  destruct (Z.eqb_spec (100 / p_val) 0); lia.
Qed.

Lemma pool_main_reports_effective opts (data : list R) rep h :
  length data = 100%nat ->
  main SecondProgram opts data (Exit0 rep h) ->
  rep_csv_threads rep = rep_hilos rep /\
  length h = RUNS /\
  Forall (fun o => Z.of_nat (length (planned o)) = rep_hilos rep) h.
Proof.
  intros Hlen Hmain. apply main_iff in Hmain. cbn [main_result] in Hmain.
  unfold pool_main_result in Hmain.
  assert (Hne : data <> []) by (destruct data; [discriminate Hlen | discriminate]).
  assert (Hfit : fits_int data) by (unfold fits_int, Int.max_int; rewrite Hlen; lia).
  destruct (PoolMain.parse opts (-1) (-1)) as [[d_val p_val]|msg] eqn:Hparse;
    [|discriminate].
  apply pool_parse_range in Hparse. destruct Hparse as (Hd & Hp).
  destruct (Z.eqb_spec d_val (-1)) as [Ed|Ed];
    destruct (Z.eqb_spec p_val (-1)) as [Ep|Ep]; cbn [andb negb] in Hmain;
    try discriminate.
  - (* -p *)
    destruct Hp as [Hp|Hp]; [lia|].
    destruct (history_in_range PoolThreadPool data p_val Hne Hfit Hp)
      as (tasks & Hpart & Hh).
    rewrite Hh in Hmain. injection Hmain as Hrep Hhist. subst rep h.
    cbn [rep_csv_threads rep_hilos].
    rewrite Hlen in Hpart. apply pool_partitions_100_workers in Hpart; [|exact Hp].
    split; [reflexivity|]. split; [reflexivity|].
    repeat (apply Forall_cons; [exact Hpart|]). apply Forall_nil.
  - (* -d *)
    destruct Hd as [Hd|Hd]; [lia|].
    destruct (history_in_range PoolDivideAndConquer data d_val Hne Hfit Hd)
      as (tasks & Hpart & Hh).
    rewrite Hh in Hmain.
    injection Hmain as Hrep Hhist. subst rep h. cbn [rep_csv_threads rep_hilos].
    rewrite Hlen in Hpart.
    pose proof (pool_partitions_100_depth _ _ Hd Hpart) as Hn.
    split; [reflexivity|]. split; [reflexivity|].
    repeat (apply Forall_cons; [exact Hn|]). apply Forall_nil.
Qed.

(** ** Over the exact reals the harness has one result *)

Lemma main_deterministic p opts (data : list R) r1 r2 :
  main p opts data r1 -> main p opts data r2 -> r1 = r2.
Proof. rewrite !main_iff. congruence. Qed.

Lemma main_total p opts (data : list R) : exists r, main p opts data r.
Proof. exists (main_result p opts data). now apply main_iff. Qed.

(** A harness that exits normally reports the metrics that each of its
    [RUNS] runs has returned. *)
Lemma main_runs_identical p opts (data : list R) rep h :
  main p opts data (Exit0 rep h) ->
  map metrics h = repeat (rep_metrics rep) RUNS.
Proof.
  intros H. apply main_iff in H. symmetry in H.
  apply main_result_exit0 in H. destruct H as (o & -> & ->).
  apply map_metrics_repeat.
Qed.

(** ** The executors agree with each other *)

(** Over the exact reals, on one dataset, any two calls with parameters of
    their ranges return the same metrics and have merged the same totals,
    whatever the executors and the part counts. *)
Lemma metrics_independent_of_partition e1 e2 (data : list R) p1 p2 m1 m2 r1 r2 :
  data <> [] -> fits_int data ->
  in_range e1 p1 -> in_range e2 p2 ->
  run e1 data p1 m1 r1 -> run e2 data p2 m2 r2 ->
  exists o1 o2,
    r1 = Returned o1 /\ r2 = Returned o2 /\
    metrics o1 = sequential_metrics data /\ metrics o2 = sequential_metrics data /\
    globals o1 = Some (sequential_pass data) /\
    globals o2 = Some (sequential_pass data).
Proof.
  intros Hne Hfit Hr1 Hr2 H1 H2.
  destruct (run_in_range _ _ _ _ _ Hne Hfit Hr1 H1) as (t1 & _ & _ & ->).
  destruct (run_in_range _ _ _ _ _ Hne Hfit Hr2 H2) as (t2 & _ & _ & ->).
  do 2 eexists. repeat split.
Qed.

(** The totals of the single-threaded pass: the plain sum is the left
    fold of the dataset, and the count is its size. *)
Lemma sum_sequential_pass (data : list R) :
  sum (sequential_pass data) = fold_left Rplus data 0%R.
Proof. unfold sequential_pass. now rewrite sequential_from_sum. Qed.

(** ** Examples *)

Example dc_plan_100_depth_5 : Dc.plan 100 5 = Some (16, 6).
Proof. reflexivity. Qed.

Example dc_plan_3_depth_31 : Dc.plan 3 31 = Some (3, 1).
Proof. reflexivity. Qed.

Example pool_plan_3_depth_2 :
  partitions PoolDivideAndConquer 3 2 = Some [(0, 1); (1, 2); (2, 3)].
Proof. reflexivity. Qed.

Example pool_workers_10_by_3 :
  partitions PoolThreadPool 10 3 = Some [(0, 3); (3, 6); (6, 10)].
Proof. reflexivity. Qed.

Example pool_workers_2_by_32 :
  partitions PoolThreadPool 2 32 = Some [(0, 1); (1, 2)].
Proof. reflexivity. Qed.

Lemma is_zero_0 : is_zero 0%R = true.
Proof. now apply is_zero_true. Qed.

Lemma is_zero_pos (v : R) : (0 < v)%R -> is_zero v = false.
Proof.
  intros H. destruct (is_zero v) eqn:E; [|reflexivity].
  apply is_zero_true in E. lra.
Qed.

(** The scenario of the specification: the dataset 0, 1, 2 has a zero, so
    the product-style metric is 0; the differences add up to 0 and the sum
    to 3, so mode is 0 and stddev 1.5. *)
Example scenario_0_1_2 :
  sequential_metrics [0%R; 1%R; 2%R] =
  {| m_mode := 0%R; m_stddev := 1.5%R; m_sum := 0%R |}.
Proof.
  unfold sequential_metrics, sequential_pass.
  cbn [sequential_from sequential_step log_sum sum diff_sum has_zero count
       zero_totals].
  rewrite is_zero_0, !is_zero_pos by lra.
  cbn [count Z.add Z.ltb Z.compare Pos.add Pos.succ].
  f_equal; cbn; lra.
Qed.

(** With one partition or with three, the executors return these metrics. *)
Example scenario_0_1_2_one_or_three_partitions m0 r1 r3 :
  run DcDivideAndConquer [0%R; 1%R; 2%R] 0 m0 r1 ->
  run PoolThreadPool [0%R; 1%R; 2%R] 3 m0 r3 ->
  exists o1 o3,
    r1 = Returned o1 /\ r3 = Returned o3 /\
    planned o1 = [(0, 3)] /\ planned o3 = [(0, 1); (1, 2); (2, 3)] /\
    metrics o1 = {| m_mode := 0%R; m_stddev := 1.5%R; m_sum := 0%R |} /\
    metrics o3 = {| m_mode := 0%R; m_stddev := 1.5%R; m_sum := 0%R |}.
Proof.
  intros H1 H3.
  assert (Hne : [0%R; 1%R; 2%R] <> []) by discriminate.
  assert (Hfit : fits_int [0%R; 1%R; 2%R])
    by (unfold fits_int, Int.max_int; cbn; lia).
  destruct (run_in_range DcDivideAndConquer _ 0 _ _ Hne Hfit
              ltac:(cbn; lia) H1) as (t1 & Hp1 & _ & ->).
  destruct (run_in_range PoolThreadPool _ 3 _ _ Hne Hfit
              ltac:(cbn; lia) H3) as (t3 & Hp3 & _ & ->).
  vm_compute in Hp1. injection Hp1 as <-.
  vm_compute in Hp3. injection Hp3 as <-.
  do 2 eexists. repeat split; apply scenario_0_1_2.
Qed.

(** ** Over the exact reals: closed forms of the metrics *)

Lemma fold_Rplus_acc values : forall a, fold_left Rplus values a = (a + total values)%R.
Proof.
  unfold total. induction values as [|v rest IH]; intros a; cbn [fold_left].
  - lra.
  - rewrite IH, (IH (0 + v)%R). lra.
Qed.

Lemma fold_Rmult_acc values : forall a, fold_left Rmult values a = (a * product values)%R.
Proof.
  unfold product. induction values as [|v rest IH]; intros a; cbn [fold_left].
  - lra.
  - rewrite IH, (IH (1 * v)%R). lra.
Qed.

Lemma total_cons v rest : total (v :: rest) = (v + total rest)%R.
Proof. unfold total at 1. cbn [fold_left]. rewrite fold_Rplus_acc. lra. Qed.

Lemma product_cons v rest : product (v :: rest) = (v * product rest)%R.
Proof. unfold product at 1. cbn [fold_left]. rewrite fold_Rmult_acc. lra. Qed.

Lemma product_zero data : In 0%R data -> product data = 0%R.
Proof.
  induction data as [|v rest IH]; intros H; [destruct H|].
  rewrite product_cons. destruct H as [->|H]; [lra|]. rewrite IH by exact H. lra.
Qed.

Lemma product_nonzero data : ~ In 0%R data -> product data <> 0%R.
Proof.
  induction data as [|v rest IH]; intros H.
  - unfold product. cbn. lra.
  - rewrite product_cons. apply Rmult_integral_contrapositive_currified.
    + intros ->. apply H. now left.
    + apply IH. intros Hin. apply H. now right.
Qed.

(** The exponential of the sum of logarithms is the absolute value of the
    product. *)
Lemma exp_sum_ln_abs data :
  ~ In 0%R data -> exp (sum_ln_abs data) = Rabs (product data).
Proof.
  unfold sum_ln_abs.
  assert (H : forall values a,
             ~ In 0%R values ->
             exp (fold_left (fun s v => (s + ln (Rabs v))%R) values a) =
             (exp a * Rabs (product values))%R).
  { induction values as [|v rest IH]; intros a Hnz; cbn [fold_left].
    - unfold product. cbn. rewrite Rabs_R1. lra.
    - rewrite IH by (intros Hin; apply Hnz; now right).
      rewrite product_cons, Rabs_mult, exp_plus, exp_ln; [lra|].
      apply Rabs_pos_lt. intros ->. apply Hnz. now left. }
  intros Hnz. rewrite H by exact Hnz. rewrite exp_0. lra.
Qed.

Lemma m_sum_product data : m_sum (sequential_metrics data) = Rabs (product data).
Proof.
  destruct (in_dec Req_EM_T 0%R data) as [Hz|Hnz].
  - rewrite (proj1 (m_sum_sequential data) Hz), product_zero by exact Hz.
    now rewrite Rabs_R0.
  - rewrite (proj2 (m_sum_sequential data) Hnz). now apply exp_sum_ln_abs.
Qed.

Lemma sequential_from_diff_sum values :
  forall i a,
    diff_sum (sequential_from i values a) =
    (diff_sum a + total values
     - INR (length values) * IZR i
     - INR (length values) * (INR (length values) - 1) / 2)%R.
Proof.
  induction values as [|v rest IH]; intros i a; cbn [sequential_from].
  - unfold total. cbn. lra.
  - rewrite IH. cbn [sequential_step diff_sum]. exact_arith. rewrite total_cons.
    change (length (v :: rest)) with (S (length rest)).
    rewrite S_INR, plus_IZR. lra.
Qed.

Lemma diff_sum_sequential_pass data :
  diff_sum (sequential_pass data) =
  (total data - INR (length data) * (INR (length data) - 1) / 2)%R.
Proof.
  unfold sequential_pass. rewrite sequential_from_diff_sum. cbn. lra.
Qed.

Lemma m_stddev_total data : m_stddev (sequential_metrics data) = (total data / 2)%R.
Proof.
  unfold sequential_metrics. cbn [m_stddev]. exact_arith.
  now rewrite sum_sequential_pass, fold_Rplus_acc, Rplus_0_l.
Qed.

Lemma m_mode_total data :
  data <> [] ->
  m_mode (sequential_metrics data) =
  (total data / INR (length data) - (INR (length data) - 1) / 2)%R.
Proof.
  intros Hne. unfold sequential_metrics. cbn [m_mode]. exact_arith.
  rewrite count_sequential_pass, diff_sum_sequential_pass, <- INR_IZR_INZ.
  assert (Hpos : (0 < INR (length data))%R).
  { apply lt_0_INR. destruct data; [congruence | cbn; lia]. }
  destruct (Z.ltb_spec 0 (Z.of_nat (length data))) as [_|Hle].
  - field. lra.
  - destruct data; [congruence | cbn [length] in Hle; lia].
Qed.

Lemma total_perm data data' : Permutation data data' -> total data = total data'.
Proof.
  induction 1 as [|v l l' _ IH|v w l|l l' l'' _ IH1 _ IH2].
  - reflexivity.
  - rewrite !total_cons. lra.
  - rewrite !total_cons. lra.
  - congruence.
Qed.

Lemma product_perm data data' : Permutation data data' -> product data = product data'.
Proof.
  induction 1 as [|v l l' _ IH|v w l|l l' l'' _ IH1 _ IH2].
  - reflexivity.
  - rewrite !product_cons. now rewrite IH.
  - rewrite !product_cons. lra.
  - congruence.
Qed.

Lemma metrics_eq {D : Type} (a b : Metrics D) :
  m_mode a = m_mode b -> m_stddev a = m_stddev b -> m_sum a = m_sum b -> a = b.
Proof. destruct a, b; cbn; intros; subst; reflexivity. Qed.

Lemma sequential_metrics_perm data data' :
  Permutation data data' -> sequential_metrics data = sequential_metrics data'.
Proof.
  intros Hp. destruct data as [|v data].
  - apply Permutation_nil in Hp. now subst.
  - assert (Hne' : data' <> []).
    { intros ->. apply Permutation_sym, Permutation_nil in Hp. discriminate. }
    apply metrics_eq.
    + rewrite !m_mode_total by (assumption || discriminate).
      now rewrite (total_perm _ _ Hp), (Permutation_length Hp).
    + now rewrite !m_stddev_total, (total_perm _ _ Hp).
    + now rewrite !m_sum_product, (product_perm _ _ Hp).
Qed.

Lemma abs_product data : Rabs (product data) = product (map Rabs data).
Proof.
  induction data as [|v rest IH].
  - unfold product. cbn. apply Rabs_R1.
  - cbn [map]. now rewrite !product_cons, Rabs_mult, IH.
Qed.

(** A call in range returns the metrics of the single-threaded pass, and
    has no other result. *)
Lemma run_metrics e (data : list R) param m0 :
  data <> [] -> fits_int data -> in_range e param ->
  exists o,
    run e data param m0 (Returned o) /\
    (forall res, run e data param m0 res -> res = Returned o) /\
    metrics o = sequential_metrics data.
Proof.
  intros Hne Hfit Hr.
  destruct (run_in_range_unique e data param m0 Hne Hfit Hr)
    as (tasks & _ & _ & Hrun & Huniq).
  eexists. split; [exact Hrun|]. split; [exact Huniq | reflexivity].
Qed.

(** * The claims *)

(** C1.  Over exact arithmetic, for every non-empty dataset whose size
    fits [int] and every parameter of an executor's range (the depth 32 of
    the first program included, where [1 << 32] is 1), whatever the order
    in which the tasks merge, a call returns after having merged exactly
    the totals of the single-threaded pass over the whole dataset in
    element order; its sum is the left fold of the dataset and its
    diff-sum is that sum less [0 + 1 + ... + (N - 1)]; its metrics are
    [mode = diff_sum / N] and [stddev = sum / 2] computed from these
    totals, and every other call in range on the same dataset, whatever
    its executor and part count, returns the same metrics. *)
Theorem sums_are_sequential e (data : list R) param m0 :
  data <> [] -> fits_int data -> in_range e param ->
  exists o g,
    run e data param m0 (Returned o) /\
    (forall res, run e data param m0 res -> res = Returned o) /\
    globals o = Some g /\ g = sequential_pass data /\
    sum g = fold_left Rplus data 0%R /\
    diff_sum g =
      (fold_left Rplus data 0 - INR (length data) * (INR (length data) - 1) / 2)%R /\
    metrics o = sequential_metrics data /\
    m_mode (metrics o) = (diff_sum g / INR (length data))%R /\
    m_stddev (metrics o) = (sum g / 2)%R /\
    forall e' param' m0' res',
      in_range e' param' -> run e' data param' m0' res' ->
      exists o', res' = Returned o' /\ metrics o' = metrics o.
Proof.
  intros Hne Hfit Hr.
  destruct (run_in_range_unique e data param m0 Hne Hfit Hr)
    as (tasks & _ & _ & Hrun & Huniq).
  do 2 eexists. split; [exact Hrun|]. split; [exact Huniq|].
  split; [reflexivity|]. split; [reflexivity|].
  split; [apply sum_sequential_pass|].
  split; [apply diff_sum_sequential_pass|]. split; [reflexivity|].
  cbn [metrics sequential_outcome]. split; [|split].
  - unfold sequential_metrics. cbn [m_mode]. exact_arith.
    rewrite count_sequential_pass, <- INR_IZR_INZ.
    destruct (Z.ltb_spec 0 (Z.of_nat (length data))) as [_|Hle]; [reflexivity|].
    destruct data; [congruence | cbn [length] in Hle; lia].
  - reflexivity.
  - intros e' param' m0' res' Hr' Hrun'.
    destruct (run_in_range e' data param' m0' res' Hne Hfit Hr' Hrun')
      as (tasks' & _ & _ & ->).
    eexists. split; reflexivity.
Qed.

Lemma sums_are_sequential_witness :
  exists o g,
    run DcDivideAndConquer [1%R; 2%R; 3%R] 32 zero_metrics (Returned o) /\
    (forall res, run DcDivideAndConquer [1%R; 2%R; 3%R] 32 zero_metrics res ->
                 res = Returned o) /\
    globals o = Some g /\ g = sequential_pass [1%R; 2%R; 3%R] /\
    sum g = fold_left Rplus [1%R; 2%R; 3%R] 0%R /\
    diff_sum g =
      (fold_left Rplus [1%R; 2%R; 3%R] 0
       - INR (length [1%R; 2%R; 3%R]) * (INR (length [1%R; 2%R; 3%R]) - 1) / 2)%R /\
    metrics o = sequential_metrics [1%R; 2%R; 3%R] /\
    m_mode (metrics o) = (diff_sum g / INR (length [1%R; 2%R; 3%R]))%R /\
    m_stddev (metrics o) = (sum g / 2)%R /\
    forall e' param' m0' res',
      in_range e' param' -> run e' [1%R; 2%R; 3%R] param' m0' res' ->
      exists o', res' = Returned o' /\ metrics o' = metrics o.
Proof.
  apply (sums_are_sequential DcDivideAndConquer [1%R; 2%R; 3%R] 32 zero_metrics).
  - discriminate.
  - unfold fits_int, Int.max_int. cbn. lia.
  - cbn. lia.
Defined.

(** C2, as stated, fails in binary64.  The dataset 2^1000, 2^-1000, 3 has
    no zero element.  With depth 0 the first program runs the
    single-threaded fold: the sum of logarithms is
    (ln 2^1000 + ln 2^-1000) + ln 3 = ln 3, and [sum] is
    exp (ln 3) = 3.0000000000000004.  With depth 1 it runs the tasks
    [[0, 1)] and [[1, 3)]: the shared sum of logarithms is
    ln 2^1000 + (ln 2^-1000 + ln 3), whose inner sum is rounded at the
    magnitude of 693, and [sum] is 3.0000000000001634 in either merge
    order, 367 units in the last place away from what the single-threaded
    fold produces.  The five values of [std::log] and [std::exp] that the
    two calls read are hypotheses: they are the correctly rounded values
    of ln and exp at these arguments, which the C library returns. *)
Lemma sum_depends_on_partition_in_binary64 :
  exists data : list float,
    data = [0x1p+1000; 0x1p-1000; 3]%float /\
    forall log exp : float -> float,
      log 0x1p+1000%float = 0x1.5a92d6d005c94p+9%float ->
      log 0x1p-1000%float = (-0x1.5a92d6d005c94p+9)%float ->
      log 3%float = 0x1.193ea7aad030bp+0%float ->
      exp 0x1.193ea7aad030bp+0%float = 0x1.8000000000001p+1%float ->
      exp 0x1.193ea7aad0400p+0%float = 0x1.8000000000170p+1%float ->
      let num := Binary64.double log exp in
      some_zero data = false /\
      (exists o, run DcDivideAndConquer data 0 zero_metrics (Returned o)) /\
      (forall res,
          run DcDivideAndConquer data 0 zero_metrics res ->
          exists o, res = Returned o /\ planned o = [(0, 3)] /\
                    m_sum (metrics o) = 0x1.8000000000001p+1%float) /\
      (exists o, run DcDivideAndConquer data 1 zero_metrics (Returned o)) /\
      (forall res,
          run DcDivideAndConquer data 1 zero_metrics res ->
          exists o, res = Returned o /\ planned o = [(0, 1); (1, 3)] /\
                    m_sum (metrics o) = 0x1.8000000000170p+1%float) /\
      0x1.8000000000001p+1%float <> 0x1.8000000000170p+1%float.
Proof.
  eexists. split; [reflexivity|]. intros log exp L1 L2 L3 E1 E2 num.
  set (data := [0x1p+1000; 0x1p-1000; 3]%float).
  assert (Hne : data <> []) by discriminate.
  assert (Hfit : fits_int data) by (unfold fits_int, Int.max_int; cbn; lia).
  assert (Hr0 : in_range DcDivideAndConquer 0) by (cbn; lia).
  assert (Hr1 : in_range DcDivideAndConquer 1) by (cbn; lia).
  destruct (run_flags DcDivideAndConquer data 0 zero_metrics Hne Hfit Hr0)
    as (Hex0 & _).
  destruct (run_flags DcDivideAndConquer data 1 zero_metrics Hne Hfit Hr1)
    as (Hex1 & _).
  destruct (run_joined DcDivideAndConquer data 0 zero_metrics Hne Hfit Hr0)
    as (tasks0 & Hp0 & _ & Hrun0).
  destruct (run_joined DcDivideAndConquer data 1 zero_metrics Hne Hfit Hr1)
    as (tasks1 & Hp1 & _ & Hrun1).
  vm_compute in Hp0. injection Hp0 as <-.
  vm_compute in Hp1. injection Hp1 as <-.
  assert (S0 : run_in_order data [(0, 3)] zero_totals <> None /\
               forall g, run_in_order data [(0, 3)] zero_totals = Some g ->
                         m_sum (final_metrics g) = 0x1.8000000000001p+1%float).
  { split; [discriminate|]. intros g Hg. injection Hg as <-.
    vm_compute. rewrite L1, L2, L3. vm_compute. exact E1. }
  assert (S1 : run_in_order data [(0, 1); (1, 3)] zero_totals <> None /\
               forall g, run_in_order data [(0, 1); (1, 3)] zero_totals = Some g ->
                         m_sum (final_metrics g) = 0x1.8000000000170p+1%float).
  { split; [discriminate|]. intros g Hg. injection Hg as <-.
    vm_compute. rewrite L1, L2, L3. vm_compute. exact E2. }
  assert (S2 : run_in_order data [(1, 3); (0, 1)] zero_totals <> None /\
               forall g, run_in_order data [(1, 3); (0, 1)] zero_totals = Some g ->
                         m_sum (final_metrics g) = 0x1.8000000000170p+1%float).
  { split; [discriminate|]. intros g Hg. injection Hg as <-.
    vm_compute. rewrite L1, L2, L3. vm_compute. exact E2. }
  split; [reflexivity|]. split; [exact Hex0|]. split; [|split; [exact Hex1|split]].
  - intros res Hrun. apply Hrun0 in Hrun. destruct Hrun as (og & (order & Hperm & Ho) & ->).
    apply Permutation_length_1_inv in Hperm. subst order.
    destruct og as [g|]; [|now destruct S0 as (S0 & _)].
    eexists. split; [reflexivity|]. split; [reflexivity|].
    cbn [metrics]. now apply S0.
  - intros res Hrun. apply Hrun1 in Hrun. destruct Hrun as (og & (order & Hperm & Ho) & ->).
    apply Permutation_length_2_inv in Hperm. destruct Hperm as [-> | ->].
    + destruct og as [g|]; [|now destruct S1 as (S1 & _)].
      eexists. split; [reflexivity|]. split; [reflexivity|].
      cbn [metrics]. now apply S1.
    + destruct og as [g|]; [|now destruct S2 as (S2 & _)].
      eexists. split; [reflexivity|]. split; [reflexivity|].
      cbn [metrics]. now apply S2.
  - intros H. apply (f_equal Prim2SF) in H. vm_compute in H. discriminate H.
Qed.

(** C2, amended.  For every parameter of an executor's range (the depth
    32 of the first program included) and every non-empty dataset whose
    size fits [int]:

    - in every arithmetic, binary64 with any [std::log] and [std::exp]
      included, a call returns, and whatever the order in which its tasks
      merge, its [sum] is exactly 0 when the dataset has an element equal
      to zero, and the exponential of the shared sum of logarithms when it
      has none;
    - over exact arithmetic, that value is the exponential of the sum of
      [ln |v|] over all elements, the [sum] of the single-threaded pass,
      and the call has no other result. *)
Theorem sum_metric_in_range e param :
  in_range e param ->
  (forall (D : Type) (num : Double D) (data : list D) m0,
      data <> [] -> fits_int data ->
      (exists o, run e data param m0 (Returned o)) /\
      forall res,
        run e data param m0 res ->
        exists o g,
          res = Returned o /\ globals o = Some g /\
          m_sum (metrics o) =
            if some_zero data then d_of_int 0 else d_exp (log_sum g)) /\
  (forall (data : list R) m0,
      data <> [] -> fits_int data ->
      exists o,
        run e data param m0 (Returned o) /\
        (forall res, run e data param m0 res -> res = Returned o) /\
        (In 0%R data -> m_sum (metrics o) = 0%R) /\
        (~ In 0%R data -> m_sum (metrics o) = exp (sum_ln_abs data)) /\
        m_sum (metrics o) = m_sum (sequential_metrics data)).
Proof.
  intros Hr. split.
  - intros D num data m0 Hne Hfit.
    destruct (run_flags e data param m0 Hne Hfit Hr) as (Hex & Hall).
    split; [exact Hex|]. intros res Hrun.
    destruct (Hall res Hrun) as (o & g & -> & Hg & Hm & _ & _ & _ & _ & Hz).
    exists o, g. split; [reflexivity|]. split; [exact Hg|].
    rewrite Hm. cbn [final_metrics m_sum]. now rewrite Hz.
  - intros data m0 Hne Hfit.
    destruct (run_in_range_unique e data param m0 Hne Hfit Hr)
      as (tasks & _ & _ & Hrun & Huniq).
    eexists. split; [exact Hrun|]. split; [exact Huniq|].
    cbn [metrics sequential_outcome].
    split; [apply m_sum_sequential|]. split; [apply m_sum_sequential | reflexivity].
Qed.

Lemma sum_metric_in_range_witness :
  exists o,
    run DcDivideAndConquer [2%R; 0%R; 5%R] 32 zero_metrics (Returned o) /\
    (forall res, run DcDivideAndConquer [2%R; 0%R; 5%R] 32 zero_metrics res ->
                 res = Returned o) /\
    (In 0%R [2%R; 0%R; 5%R] -> m_sum (metrics o) = 0%R) /\
    (~ In 0%R [2%R; 0%R; 5%R] ->
     m_sum (metrics o) = exp (sum_ln_abs [2%R; 0%R; 5%R])) /\
    m_sum (metrics o) = m_sum (sequential_metrics [2%R; 0%R; 5%R]).
Proof.
  apply (proj2 (sum_metric_in_range DcDivideAndConquer 32 ltac:(cbn; lia))
               [2%R; 0%R; 5%R] zero_metrics).
  - discriminate.
  - unfold fits_int, Int.max_int. cbn. lia.
Defined.

(** C3.  For every dataset size from 1 to the largest [int] and every
    parameter of an executor's range (the depth 32 of the first program
    included), the ranges of the tasks are contiguous, do not overlap, and
    cover exactly the indices 0 to N - 1; their lengths add up to N.
    These are the tasks that every call of the executor on a dataset of
    that size constructs, in every arithmetic and every merge order. *)
Theorem partitions_cover_dataset e size param :
  1 <= size <= Int.max_int -> in_range e param ->
  exists tasks,
    partitions e size param = Some tasks /\
    partition_of tasks size /\
    forall (D : Type) (num : Double D) (data : list D) m0 res,
      Z.of_nat (length data) = size ->
      run e data param m0 res ->
      exists o, res = Returned o /\ planned o = tasks.
Proof.
  intros Hsize Hr.
  destruct (partitions_cover e size param Hsize Hr) as (tasks & Hp & Hpart).
  exists tasks. split; [exact Hp|]. split; [exact Hpart|].
  intros D num data m0 res Hlen Hrun.
  assert (Hne : data <> []) by (intros ->; cbn in Hlen; lia).
  assert (Hfit : fits_int data) by (unfold fits_int; lia).
  destruct (run_flags e data param m0 Hne Hfit Hr) as (_ & Hall).
  destruct (Hall res Hrun) as (o & g & -> & _ & _ & _ & Hp' & _).
  exists o. split; [reflexivity|]. rewrite Hlen in Hp'. congruence.
Qed.

Lemma partitions_cover_dataset_witness :
  exists tasks,
    partitions DcDivideAndConquer 3 32 = Some tasks /\
    partition_of tasks 3 /\
    forall (D : Type) (num : Double D) (data : list D) m0 res,
      Z.of_nat (length data) = 3 ->
      run DcDivideAndConquer data 32 m0 res ->
      exists o, res = Returned o /\ planned o = tasks.
Proof.
  apply (partitions_cover_dataset DcDivideAndConquer 3 32).
  - unfold Int.max_int. lia.
  - cbn. lia.
Defined.

(** C4.  In every arithmetic, for every non-empty dataset whose size fits
    [int] and every parameter of an executor's range (the depth 32 of the
    first program included), a call returns, and whatever the order in
    which its tasks have merged, the global element count after all
    merges is the size of the dataset. *)
Theorem count_is_size {D : Type} {num : Double D} e (data : list D) param m0 :
  data <> [] -> fits_int data -> in_range e param ->
  (exists o, run e data param m0 (Returned o)) /\
  forall res,
    run e data param m0 res ->
    exists o g,
      res = Returned o /\ globals o = Some g /\
      count g = Z.of_nat (length data).
Proof.
  intros Hne Hfit Hr.
  destruct (run_flags e data param m0 Hne Hfit Hr) as (Hex & Hall).
  split; [exact Hex|]. intros res Hrun.
  destruct (Hall res Hrun) as (o & g & -> & Hg & _ & _ & _ & _ & Hc & _).
  now exists o, g.
Qed.

Lemma count_is_size_witness :
  (exists o, run DcDivideAndConquer [1%R; 2%R; 3%R] 32 zero_metrics (Returned o)) /\
  forall res,
    run DcDivideAndConquer [1%R; 2%R; 3%R] 32 zero_metrics res ->
    exists o g,
      res = Returned o /\ globals o = Some g /\
      count g = Z.of_nat (length [1%R; 2%R; 3%R]).
Proof.
  apply (count_is_size DcDivideAndConquer [1%R; 2%R; 3%R] 32 zero_metrics).
  - discriminate.
  - unfold fits_int, Int.max_int. cbn. lia.
  - cbn. lia.
Defined.

(** C5, as stated, fails in the first program: for 17 elements and depth 5
    the requested part count is 32, the chunk size 17 / 32 is 0, and the
    effective part count is 16, not 17. *)
Lemma clamp_counterexample :
  requested_parts DcDivideAndConquer 5 = 32 /\
  Int.div 17 32 = Some 0 /\
  plan DcDivideAndConquer 17 5 = Some (16, 1) /\
  16 <> 17.
Proof. repeat split; try reflexivity. discriminate. Qed.

(** C5, amended.  Whenever the chunk size computed from the requested part
    count is 0, the effective part count is the dataset size [N] in the
    second program and [min N 16] in the first, the chunk size is [N]
    divided by that count, and every task constructed has a non-empty
    range. *)
Theorem clamp_when_chunk_is_zero e size param requested :
  1 <= size <= Int.max_int ->
  requested_parts e param = requested ->
  Int.div size requested = Some 0 ->
  exists tasks,
    plan e size param = Some (clamped_parts e size, size / clamped_parts e size) /\
    partitions e size param = Some tasks /\
    length tasks = Z.to_nat (clamped_parts e size) /\
    Forall non_empty tasks.
Proof.
  intros Hsize Hreq Hdiv.
  assert (Hplan : plan e size param =
                  Some (clamped_parts e size, size / clamped_parts e size)).
  { destruct e; cbn [plan requested_parts clamped_parts] in *.
    - unfold Dc.plan. rewrite Hreq. cbv zeta. rewrite Hdiv. cbn [bind Z.eqb orb].
      now apply dc_plan_clamped.
    - unfold Pool.plan, Pool.clamp. rewrite Hreq. rewrite Hdiv.
      cbn [bind Z.eqb]. now rewrite Z.div_same by lia.
    - subst requested. unfold Pool.clamp. rewrite Hdiv.
      cbn [bind Z.eqb]. now rewrite Z.div_same by lia. }
  assert (Hw : well_planned size (clamped_parts e size)
                            (size / clamped_parts e size)).
  { apply well_planned_div. destruct e; cbn [clamped_parts]; lia. }
  unfold partitions. rewrite Hplan. cbn [bind].
  eexists. split; [reflexivity|]. split; [reflexivity|].
  split; [apply make_tasks_length|].
  apply (chained_non_empty 0 _ size), planned_tasks_chained; [exact Hw | lia].
Qed.

Lemma clamp_when_chunk_is_zero_witness :
  exists tasks,
    plan DcDivideAndConquer 17 5 =
      Some (clamped_parts DcDivideAndConquer 17,
            17 / clamped_parts DcDivideAndConquer 17) /\
    partitions DcDivideAndConquer 17 5 = Some tasks /\
    length tasks = Z.to_nat (clamped_parts DcDivideAndConquer 17) /\
    Forall non_empty tasks.
Proof.
  apply (clamp_when_chunk_is_zero DcDivideAndConquer 17 5 32).
  - unfold Int.max_int. lia.
  - reflexivity.
  - reflexivity.
Defined.

(** C6.  In every arithmetic, on a non-empty dataset, a parameter outside
    the range of the executor (depth outside 0..32 in the first program,
    outside 0..5 in the second; worker count outside 1..32) makes the call
    return after writing the message of the range check: no task is
    constructed, no thread is created, the shared accumulators are not
    even declared, and the output metrics keep the values the caller
    passed in.  The call has no other result. *)
Theorem out_of_range_rejected {D : Type} {num : Double D} e (data : list D) param m0 :
  data <> [] -> ~ in_range e param ->
  run e data param m0
      (Returned {| metrics := m0; stderr := [range_error e]; planned := [];
                   spawned := 0; globals := None |}) /\
  forall res,
    run e data param m0 res ->
    res = Returned {| metrics := m0; stderr := [range_error e]; planned := [];
                      spawned := 0; globals := None |}.
Proof.
  intros Hne Hr.
  split; [now apply run_rejected|].
  intros res Hrun. now apply (run_rejected e data param m0 res Hne Hr).
Qed.

Lemma out_of_range_rejected_witness :
  run PoolThreadPool [7%R; 8%R] 0 {| m_mode := 1%R; m_stddev := 2%R; m_sum := 3%R |}
      (Returned {| metrics := {| m_mode := 1%R; m_stddev := 2%R; m_sum := 3%R |};
                   stderr := [range_error PoolThreadPool]; planned := [];
                   spawned := 0; globals := None |}) /\
  forall res,
    run PoolThreadPool [7%R; 8%R] 0
        {| m_mode := 1%R; m_stddev := 2%R; m_sum := 3%R |} res ->
    res = Returned {| metrics := {| m_mode := 1%R; m_stddev := 2%R; m_sum := 3%R |};
                      stderr := [range_error PoolThreadPool]; planned := [];
                      spawned := 0; globals := None |}.
Proof.
  apply (out_of_range_rejected PoolThreadPool [7%R; 8%R] 0).
  - discriminate.
  - cbn. lia.
Defined.

(** C7.  In every arithmetic, on the empty dataset every executor,
    whatever the parameter, has exactly one result: it returns with
    (mode, stddev, sum) = (0, 0, 0), having constructed no task and
    created no thread. *)
Theorem empty_dataset_zero_metrics {D : Type} {num : Double D} e param
    (m0 : Metrics D) res :
  run e [] param m0 res <->
  res = Returned {| metrics := {| m_mode := d_of_int 0; m_stddev := d_of_int 0;
                                  m_sum := d_of_int 0 |};
                    stderr := []; planned := []; spawned := 0; globals := None |}.
Proof. apply run_empty. Qed.

(** C8.  In the first program the count printed on the line "Hilos: " is
    the split depth itself and the count written to results.csv is the
    part count requested, [1 << d_val]; neither is the number of partitions
    in use.  On the 100-element dataset, with depth 2 the console shows 2
    while every run constructs 4 tasks, and with depth 5 the row holds 32
    while every run constructs 16 tasks.  In the second program, on a
    100-element dataset, the count printed and the count logged are both
    the number of tasks of every run. *)
Theorem dc_main_reports_depth :
  (exists rep h,
      main FirstProgram [OptD 2] (repeat 1%R 100) (Exit0 rep h) /\
      rep_hilos rep = 2 /\ rep_csv_threads rep = 4 /\ length h = RUNS /\
      Forall (fun o => length (planned o) = 4%nat) h) /\
  (exists rep h,
      main FirstProgram [OptD 5] (repeat 1%R 100) (Exit0 rep h) /\
      rep_hilos rep = 5 /\ rep_csv_threads rep = 32 /\ length h = RUNS /\
      Forall (fun o => length (planned o) = 16%nat) h) /\
  (forall opts data rep h,
      length data = 100%nat ->
      main SecondProgram opts data (Exit0 rep h) ->
      rep_csv_threads rep = rep_hilos rep /\ length h = RUNS /\
      Forall (fun o => Z.of_nat (length (planned o)) = rep_hilos rep) h).
Proof.
  assert (Hne : repeat 1%R 100 <> []) by discriminate.
  assert (Hlen : Z.of_nat (length (repeat 1%R 100)) = 100)
    by now rewrite repeat_length.
  assert (Hfit : fits_int (repeat 1%R 100))
    by (unfold fits_int, Int.max_int; rewrite Hlen; lia).
  split; [|split].
  - destruct (dc_main_in_range 2 _ Hne Hfit ltac:(lia))
      as (tasks & Hp & Hmain).
    rewrite Hlen in Hp. vm_compute in Hp. injection Hp as <-.
    pose proof (proj2 (main_iff FirstProgram _ _ _) (eq_sym Hmain)) as Hm.
    do 2 eexists. split; [exact Hm|].
    repeat split; try reflexivity.
    apply Forall_forall. intros o Ho. apply repeat_spec in Ho. now subst o.
  - destruct (dc_main_in_range 5 _ Hne Hfit ltac:(lia))
      as (tasks & Hp & Hmain).
    rewrite Hlen in Hp. vm_compute in Hp. injection Hp as <-.
    pose proof (proj2 (main_iff FirstProgram _ _ _) (eq_sym Hmain)) as Hm.
    do 2 eexists. split; [exact Hm|].
    repeat split; try reflexivity.
    apply Forall_forall. intros o Ho. apply repeat_spec in Ho. now subst o.
  - exact pool_main_reports_effective.
Qed.

(** C9, as stated, fails in binary64.  On the dataset 1e16, 1, -1e16 the
    first program with depth 2 constructs three tasks of one element each.
    When they take the mutex in the order of their construction the shared
    sum is (1e16 + 1) + -1e16 = 0, since 1e16 + 1 rounds to 1e16, and
    [stddev] is 0; when the third task merges before the second the sum is
    (1e16 + -1e16) + 1 = 1 and [stddev] is 0.5.  Both are results of the
    same call, whatever [std::log] and [std::exp] are, and the harness loop
    has five runs of the same call on the same dataset whose [stddev]
    alternate between the two. *)
Lemma runs_disagree_in_binary64 :
  exists data : list float,
    data = [1e16; 1; -1e16]%float /\
    forall log exp : float -> float,
    let num := Binary64.double log exp in
    exists o1 o2 history,
      run DcDivideAndConquer data 2 zero_metrics (Returned o1) /\
      run DcDivideAndConquer data 2 zero_metrics (Returned o2) /\
      planned o1 = [(0, 1); (1, 2); (2, 3)] /\
      planned o2 = [(0, 1); (1, 2); (2, 3)] /\
      m_stddev (metrics o1) = 0%float /\
      m_stddev (metrics o2) = 0.5%float /\
      m_stddev (metrics o1) <> m_stddev (metrics o2) /\
      run_loop (run DcDivideAndConquer data 2) RUNS zero_metrics (Some history) /\
      map (fun o => m_stddev (metrics o)) history = [0; 0.5; 0; 0.5; 0]%float.
Proof.
  eexists. split; [reflexivity|]. intros log exp num.
  set (data := [1e16; 1; -1e16]%float).
  set (tasks := [(0, 1); (1, 2); (2, 3)]).
  assert (Hne : data <> []) by discriminate.
  assert (Hfit : fits_int data) by (unfold fits_int, Int.max_int; cbn; lia).
  assert (Hr : in_range DcDivideAndConquer 2) by (cbn; lia).
  assert (Hp : partitions DcDivideAndConquer (Z.of_nat (length data)) 2 = Some tasks)
    by reflexivity.
  destruct (run_in_order data tasks zero_totals)
    as [g1|] eqn:E1; [|discriminate E1].
  destruct (run_in_order data
              [(0, 1); (2, 3); (1, 2)] zero_totals)
    as [g2|] eqn:E2; [|discriminate E2].
  assert (H1 : forall m0,
             run DcDivideAndConquer data 2 m0
                 (Returned {| metrics := final_metrics g1; stderr := [];
                              planned := tasks;
                              spawned := threads_of DcDivideAndConquer tasks;
                              globals := Some g1 |})).
  { intros m0. apply (run_in_some_order _ _ _ _ tasks tasks); try assumption.
    apply Permutation_refl. }
  assert (H2 : forall m0,
             run DcDivideAndConquer data 2 m0
                 (Returned {| metrics := final_metrics g2; stderr := [];
                              planned := tasks;
                              spawned := threads_of DcDivideAndConquer tasks;
                              globals := Some g2 |})).
  { intros m0.
    apply (run_in_some_order _ _ _ _ tasks [(0, 1); (2, 3); (1, 2)]);
      try assumption.
    apply perm_skip, perm_swap. }
  assert (S1 : m_stddev (final_metrics g1) = 0%float).
  { injection E1 as <-. reflexivity. }
  assert (S2 : m_stddev (final_metrics g2) = 0.5%float).
  { injection E2 as <-. reflexivity. }
  do 3 eexists.
  split; [apply H1|]. split; [apply H2|].
  split; [reflexivity|]. split; [reflexivity|].
  cbn [metrics]. split; [exact S1|]. split; [exact S2|]. split.
  - rewrite S1, S2. intros H. apply (f_equal Prim2SF) in H.
    vm_compute in H. discriminate H.
  - split.
    + apply run_loop_cons; [apply H1|].
      apply run_loop_cons; [apply H2|].
      apply run_loop_cons; [apply H1|].
      apply run_loop_cons; [apply H2|].
      apply run_loop_cons; [apply H1|].
      reflexivity.
    + cbn [map metrics]. now rewrite S1, S2.
Qed.

(** C9, amended.  Over exact arithmetic, two calls of an executor on the
    same dataset, parameter and incoming metrics have the same result,
    whatever the order in which their tasks merge; when the harness loop
    completes its five runs, every run has returned that same outcome, so
    the same mode, stddev and sum; and on a dataset whose size fits [int]
    the loop completes.  In every arithmetic, binary64 included, two calls
    that plan a single task have the same result. *)
Theorem runs_agree e (data : list R) param m0 :
  (forall r1 r2,
      run e data param m0 r1 -> run e data param m0 r2 -> r1 = r2) /\
  (forall history,
      run_loop (run e data param) RUNS m0 (Some history) ->
      exists o, run e data param m0 (Returned o) /\
                history = repeat o RUNS /\
                map metrics history = repeat (metrics o) RUNS) /\
  (fits_int data ->
   exists history, run_loop (run e data param) RUNS m0 (Some history)) /\
  (forall (D : Type) (num : Double D) (d : list D) m t r1 r2,
      d <> [] -> fits_int d -> in_range e param ->
      partitions e (Z.of_nat (length d)) param = Some [t] ->
      run e d param m r1 -> run e d param m r2 -> r1 = r2).
Proof.
  split; [|split; [|split]].
  - intros r1 r2. apply run_deterministic.
  - intros history Hloop.
    apply run_loop_iff in Hloop. symmetry in Hloop.
    apply history_of_some in Hloop. destruct Hloop as (o & Ho & ->).
    exists o. split; [apply run_iff; now symmetry|].
    split; [reflexivity | apply map_metrics_repeat].
  - intros Hfit.
    destruct (result_of_returns e data param m0 Hfit) as (o & Ho).
    exists (repeat o RUNS). apply run_loop_iff. symmetry.
    now apply history_of_repeat.
  - intros D num d m t r1 r2 Hne Hfit Hr Hp.
    now apply (run_single_task e d param m t).
Qed.

Lemma runs_agree_witness :
  exists history o,
    run_loop (run DcDivideAndConquer [0%R; 1%R; 2%R] 32) RUNS zero_metrics
             (Some history) /\
    run DcDivideAndConquer [0%R; 1%R; 2%R] 32 zero_metrics (Returned o) /\
    history = repeat o RUNS /\
    map metrics history = repeat (metrics o) RUNS.
Proof.
  destruct (runs_agree DcDivideAndConquer [0%R; 1%R; 2%R] 32 zero_metrics)
    as (_ & Hall & Hex & _).
  destruct Hex as (history & Hloop).
  - unfold fits_int, Int.max_int. cbn. lia.
  - destruct (Hall history Hloop) as (o & Ho & Hh & Hm).
    exists history, o. repeat split; assumption.
Defined.

(** C10.  In every arithmetic, the test for the empty dataset comes first
    in every executor: with the empty dataset and a parameter outside the
    range, a call returns the metrics (0, 0, 0) and writes nothing to
    [std::cerr]; it does not take the early return of the range check,
    which the same parameter triggers on every non-empty dataset and which
    would have left the metrics of the caller in place. *)
Theorem empty_check_precedes_validation {D : Type} {num : Double D} e param
    (m0 : Metrics D) res :
  ~ in_range e param -> run e [] param m0 res ->
  (exists o, res = Returned o /\ metrics o = zero_metrics /\ stderr o = [] /\
             planned o = [] /\ spawned o = O) /\
  res <> returned_rejected m0 (range_error e) /\
  forall v data, run e (v :: data) param m0 (returned_rejected m0 (range_error e)).
Proof.
  intros Hr Hrun. apply run_empty in Hrun. subst res.
  split; [eexists; split; [reflexivity|]; repeat split|].
  split; [discriminate|].
  intros v data. apply run_rejected; [discriminate | exact Hr | reflexivity].
Qed.

Lemma empty_check_precedes_validation_witness :
  (exists o, returned_empty = Returned o /\ metrics o = zero_metrics /\
             stderr o = [] /\ planned o = [] /\ spawned o = O) /\
  returned_empty <>
  returned_rejected {| m_mode := 1%R; m_stddev := 2%R; m_sum := 3%R |}
                    (range_error DcDivideAndConquer) /\
  forall v data,
    run DcDivideAndConquer (v :: data) 33
        {| m_mode := 1%R; m_stddev := 2%R; m_sum := 3%R |}
        (returned_rejected {| m_mode := 1%R; m_stddev := 2%R; m_sum := 3%R |}
                           (range_error DcDivideAndConquer)).
Proof.
  apply (empty_check_precedes_validation DcDivideAndConquer 33
           {| m_mode := 1%R; m_stddev := 2%R; m_sum := 3%R |} returned_empty).
  - cbn. lia.
  - apply run_empty. reflexivity.
Defined.
(** * Further properties *)

(** ** The metrics over exact arithmetic, as a user of the executors sees them *)

(** X1.  Over exact arithmetic, the output [sum] is the absolute value of
    the product of the elements ("Sumatoria: producto"): for every
    non-empty dataset whose size fits [int] and every parameter of the
    range, each executor returns, in every merge order, with
    [sum = |v_0 * ... * v_(N-1)|]. *)
Theorem sum_output_is_abs_product e (data : list R) param m0 :
  data <> [] -> fits_int data -> in_range e param ->
  exists o,
    run e data param m0 (Returned o) /\
    (forall res, run e data param m0 res -> res = Returned o) /\
    m_sum (metrics o) = Rabs (product data).
Proof.
  intros Hne Hfit Hr.
  destruct (run_metrics e data param m0 Hne Hfit Hr) as (o & Hrun & Huniq & Hm).
  exists o. split; [exact Hrun|]. split; [exact Huniq|].
  rewrite Hm. apply m_sum_product.
Qed.

Lemma sum_output_is_abs_product_witness :
  exists o,
    run DcDivideAndConquer [3%R; (-2)%R; 5%R] 1 zero_metrics (Returned o) /\
    (forall res, run DcDivideAndConquer [3%R; (-2)%R; 5%R] 1 zero_metrics res ->
                 res = Returned o) /\
    m_sum (metrics o) = Rabs (product [3%R; (-2)%R; 5%R]).
Proof.
  apply (sum_output_is_abs_product DcDivideAndConquer [3%R; (-2)%R; 5%R] 1).
  - discriminate.
  - unfold fits_int, Int.max_int. cbn. lia.
  - cbn. lia.
Defined.

(** X2.  Over exact arithmetic, the outputs [stddev] and [mode] are
    functions of the sum of the elements and of their number alone: every
    call in range has one result, in which [stddev] is half the sum and
    [mode], the mean of [data[i] - i], is the mean of the elements less
    [(N - 1) / 2]. *)
Theorem mode_and_stddev_from_total e (data : list R) param m0 :
  data <> [] -> fits_int data -> in_range e param ->
  exists o,
    run e data param m0 (Returned o) /\
    (forall res, run e data param m0 res -> res = Returned o) /\
    m_stddev (metrics o) = (total data / 2)%R /\
    m_mode (metrics o) =
      (total data / INR (length data) - (INR (length data) - 1) / 2)%R.
Proof.
  intros Hne Hfit Hr.
  destruct (run_metrics e data param m0 Hne Hfit Hr) as (o & Hrun & Huniq & Hm).
  exists o. split; [exact Hrun|]. split; [exact Huniq|]. rewrite Hm.
  split; [apply m_stddev_total | now apply m_mode_total].
Qed.

Lemma mode_and_stddev_from_total_witness :
  exists o,
    run PoolThreadPool [4%R; 6%R; 8%R] 2 zero_metrics (Returned o) /\
    (forall res, run PoolThreadPool [4%R; 6%R; 8%R] 2 zero_metrics res ->
                 res = Returned o) /\
    m_stddev (metrics o) = (total [4%R; 6%R; 8%R] / 2)%R /\
    m_mode (metrics o) =
      (total [4%R; 6%R; 8%R] / INR (length [4%R; 6%R; 8%R])
       - (INR (length [4%R; 6%R; 8%R]) - 1) / 2)%R.
Proof.
  apply (mode_and_stddev_from_total PoolThreadPool [4%R; 6%R; 8%R] 2).
  - discriminate.
  - unfold fits_int, Int.max_int. cbn. lia.
  - cbn. lia.
Defined.

(** X3.  Over exact arithmetic, the metrics do not depend on the order of
    the elements: on two datasets that are permutations of each other,
    calls in range return, and any result of the one and any result of
    the other, of whatever executors and with whatever part counts, carry
    the same [mode], [stddev] and [sum], although every element enters
    [mode] together with its index. *)
Theorem metrics_invariant_under_reordering e1 e2 (data data' : list R) p1 p2 m1 m2 :
  Permutation data data' ->
  data <> [] -> fits_int data ->
  in_range e1 p1 -> in_range e2 p2 ->
  (exists o1, run e1 data p1 m1 (Returned o1)) /\
  (exists o2, run e2 data' p2 m2 (Returned o2)) /\
  forall r1 r2,
    run e1 data p1 m1 r1 -> run e2 data' p2 m2 r2 ->
    exists o1 o2,
      r1 = Returned o1 /\ r2 = Returned o2 /\ metrics o1 = metrics o2.
Proof.
  intros Hp Hne Hfit Hr1 Hr2.
  assert (Hne' : data' <> []).
  { intros ->. apply Permutation_sym, Permutation_nil in Hp. contradiction. }
  assert (Hfit' : fits_int data').
  { unfold fits_int in *. now rewrite <- (Permutation_length Hp). }
  destruct (run_metrics e1 data p1 m1 Hne Hfit Hr1) as (o1 & Hrun1 & Hu1 & Hm1).
  destruct (run_metrics e2 data' p2 m2 Hne' Hfit' Hr2) as (o2 & Hrun2 & Hu2 & Hm2).
  split; [now exists o1|]. split; [now exists o2|].
  intros r1 r2 H1 H2. apply Hu1 in H1. apply Hu2 in H2. subst r1 r2.
  exists o1, o2. split; [reflexivity|]. split; [reflexivity|].
  rewrite Hm1, Hm2. now apply sequential_metrics_perm.
Qed.

Lemma metrics_invariant_under_reordering_witness :
  (exists o1, run DcDivideAndConquer [1%R; 0%R; 7%R] 1 zero_metrics (Returned o1)) /\
  (exists o2, run PoolThreadPool [7%R; 1%R; 0%R] 3 zero_metrics (Returned o2)) /\
  forall r1 r2,
    run DcDivideAndConquer [1%R; 0%R; 7%R] 1 zero_metrics r1 ->
    run PoolThreadPool [7%R; 1%R; 0%R] 3 zero_metrics r2 ->
    exists o1 o2,
      r1 = Returned o1 /\ r2 = Returned o2 /\ metrics o1 = metrics o2.
Proof.
  apply (metrics_invariant_under_reordering
           DcDivideAndConquer PoolThreadPool [1%R; 0%R; 7%R] [7%R; 1%R; 0%R]).
  - apply Permutation_sym, (Permutation_cons_app [1%R; 0%R] []), Permutation_refl.
  - discriminate.
  - unfold fits_int, Int.max_int. cbn. lia.
  - cbn. lia.
  - cbn. lia.
Defined.

(** X4.  Over exact arithmetic, the output [sum] does not see the signs of
    the elements: on two datasets whose elements have the same absolute
    values, position by position, calls in range return, and any result of
    the one and any result of the other carry the same [sum]. *)
Theorem sum_output_ignores_signs e1 e2 (data data' : list R) p1 p2 m1 m2 :
  map Rabs data = map Rabs data' ->
  data <> [] -> fits_int data ->
  in_range e1 p1 -> in_range e2 p2 ->
  (exists o1, run e1 data p1 m1 (Returned o1)) /\
  (exists o2, run e2 data' p2 m2 (Returned o2)) /\
  forall r1 r2,
    run e1 data p1 m1 r1 -> run e2 data' p2 m2 r2 ->
    exists o1 o2,
      r1 = Returned o1 /\ r2 = Returned o2 /\
      m_sum (metrics o1) = m_sum (metrics o2).
Proof.
  intros Habs Hne Hfit Hr1 Hr2.
  assert (Hlen : length data' = length data).
  { rewrite <- (length_map Rabs data'), <- Habs. apply length_map. }
  assert (Hne' : data' <> []).
  { intros ->. destruct data; [congruence | discriminate Hlen]. }
  assert (Hfit' : fits_int data') by (unfold fits_int in *; now rewrite Hlen).
  destruct (run_metrics e1 data p1 m1 Hne Hfit Hr1) as (o1 & Hrun1 & Hu1 & Hm1).
  destruct (run_metrics e2 data' p2 m2 Hne' Hfit' Hr2) as (o2 & Hrun2 & Hu2 & Hm2).
  split; [now exists o1|]. split; [now exists o2|].
  intros r1 r2 H1 H2. apply Hu1 in H1. apply Hu2 in H2. subst r1 r2.
  exists o1, o2. split; [reflexivity|]. split; [reflexivity|].
  rewrite Hm1, Hm2, !m_sum_product, !abs_product. now rewrite Habs.
Qed.

Lemma sum_output_ignores_signs_witness :
  (exists o1, run PoolDivideAndConquer [3%R; (-2)%R] 1 zero_metrics (Returned o1)) /\
  (exists o2, run PoolDivideAndConquer [(-3)%R; 2%R] 0 zero_metrics (Returned o2)) /\
  forall r1 r2,
    run PoolDivideAndConquer [3%R; (-2)%R] 1 zero_metrics r1 ->
    run PoolDivideAndConquer [(-3)%R; 2%R] 0 zero_metrics r2 ->
    exists o1 o2,
      r1 = Returned o1 /\ r2 = Returned o2 /\
      m_sum (metrics o1) = m_sum (metrics o2).
Proof.
  apply (sum_output_ignores_signs
           PoolDivideAndConquer PoolDivideAndConquer [3%R; (-2)%R] [(-3)%R; 2%R]).
  - cbn [map].
    assert (H3 : Rabs (-3) = Rabs 3) by (unfold Rabs; repeat destruct Rcase_abs; lra).
    assert (H2 : Rabs (-2) = Rabs 2) by (unfold Rabs; repeat destruct Rcase_abs; lra).
    now rewrite H3, H2.
  - discriminate.
  - unfold fits_int, Int.max_int. cbn. lia.
  - cbn. lia.
  - cbn. lia.
Defined.

(** ** The shape of the partitions *)

Lemma make_tasks_nth size parts chunk_size :
  well_planned size parts chunk_size -> size <= Int.max_int ->
  forall fuel i,
    0 <= i -> Z.of_nat fuel = parts - i ->
    forall k t,
      nth_error (make_tasks fuel i parts chunk_size size) k = Some t ->
      t = ((i + Z.of_nat k) * chunk_size,
           if i + Z.of_nat k =? parts - 1 then size
           else (i + Z.of_nat k) * chunk_size + chunk_size).
Proof.
  intros (Hp & Hc & Hpc) Hmax.
  induction fuel as [|fuel IH]; intros i Hi Hfi k t Hk.
  - destruct k; discriminate.
  - cbn [make_tasks] in Hk.
    assert (Hic : 0 <= i * chunk_size) by nia.
    assert (Hle : (i + 1) * chunk_size <= parts * chunk_size) by nia.
    rewrite int_mul_small in Hk by (unfold Int.max_int, Int.min_int in *; nia).
    rewrite int_sub_small in Hk by (unfold Int.max_int, Int.min_int in *; nia).
    rewrite !int_add_small in Hk by (unfold Int.max_int, Int.min_int in *; nia).
    destruct k as [|k]; cbn [nth_error] in Hk.
    + injection Hk as <-. now rewrite Z.add_0_r.
    + apply IH in Hk; [|lia|lia]. subst t.
      replace (i + 1 + Z.of_nat k) with (i + Z.of_nat (S k)) by lia. reflexivity.
Qed.

(** The plan of every executor: the chunk size is the quotient of the
    size by the effective part count, which stays under the ceiling. *)
Lemma plan_bounds e size param :
  1 <= size <= Int.max_int -> in_range e param ->
  exists parts chunk_size,
    plan e size param = Some (parts, chunk_size) /\
    well_planned size parts chunk_size /\
    chunk_size = size / parts /\ parts <= part_cap e.
Proof.
  intros Hsize Hr.
  destruct e; cbn [plan part_cap]; cbn [in_range] in Hr.
  - destruct (dc_plan_defined size param Hsize Hr)
      as (p & c & H & Hw & Hp & Hc).
    now exists p, c.
  - destruct (parts_of_splits_pos param Hr) as (Hk & Hk32).
    destruct (pool_clamp_defined size (2 ^ param) Hsize ltac:(lia))
      as (p & c & H & Hw & Hp & Hc).
    exists p, c. unfold Pool.plan. rewrite Hk.
    repeat split; try assumption; try apply Hw.
    subst p. destruct (Z.eqb_spec (size / 2 ^ param) 0) as [E|E]; [|lia].
    apply Z.div_small_iff in E; lia.
  - destruct (pool_clamp_defined size param Hsize ltac:(lia)) as (p & c & H & Hw & Hp & Hc).
    exists p, c. repeat split; try assumption; try apply Hw.
    subst p. destruct (Z.eqb_spec (size / param) 0) as [E|E]; [|lia].
    apply Z.div_small_iff in E; lia.
Qed.

(** X5.  The number of tasks is the requested part count, lowered to the
    size of the dataset and to the ceiling of the program: for a requested
    count [P >= 1] ([1 << splits], or the worker count) it is
    [min P (min N 16)] in the first program and [min P N] in the second,
    where no request exceeds 32.  So no executor constructs more tasks than
    the dataset has elements, and the first never more than 16. *)
Theorem effective_part_count e size param requested :
  1 <= size <= Int.max_int -> in_range e param ->
  requested_parts e param = requested -> 1 <= requested ->
  exists tasks,
    partitions e size param = Some tasks /\
    Z.of_nat (length tasks) = Z.min requested (Z.min size (part_cap e)).
Proof.
  intros Hsize Hr Hreq Hpos.
  assert (Hdiv : Int.div size requested = Some (size / requested))
    by (apply int_div_pos; lia).
  assert (Hsmall : size / requested = 0 <-> size < requested).
  { rewrite Z.div_small_iff by lia. lia. }
  assert (Hplan : exists p c, plan e size param = Some (p, c) /\
                              1 <= p /\
                              p = Z.min requested (Z.min size (part_cap e))).
  { destruct e; cbn [plan requested_parts part_cap in_range] in *.
    - unfold Dc.plan. rewrite Hreq. cbv zeta. rewrite Hdiv. cbn [bind].
      destruct (Z.eqb_spec (size / requested) 0) as [E|E];
        destruct (Z.ltb_spec 16 requested) as [H16|H16]; cbn [orb];
        try (rewrite dc_plan_clamped by lia; do 2 eexists;
             split; [reflexivity | lia]).
      do 2 eexists. split; [reflexivity | lia].
    - assert (H32 : requested <= 32).
      { destruct (parts_of_splits_pos param Hr). lia. }
      unfold Pool.plan, Pool.clamp. rewrite Hreq. rewrite Hdiv.
      cbn [bind].
      destruct (Z.eqb_spec (size / requested) 0) as [E|E];
        do 2 eexists; (split; [reflexivity | lia]).
    - subst requested. unfold Pool.clamp. rewrite Hdiv. cbn [bind].
      destruct (Z.eqb_spec (size / param) 0) as [E|E];
        do 2 eexists; (split; [reflexivity | lia]). }
  destruct Hplan as (p & c & Hplan & Hp1 & Hp).
  unfold partitions. rewrite Hplan. cbn [bind]. eexists. split; [reflexivity|].
  rewrite make_tasks_length. lia.
Qed.

Lemma effective_part_count_witness :
  exists tasks,
    partitions DcDivideAndConquer 10 3 = Some tasks /\
    Z.of_nat (length tasks) = Z.min 8 (Z.min 10 (part_cap DcDivideAndConquer)).
Proof.
  apply (effective_part_count DcDivideAndConquer 10 3 8).
  - unfold Int.max_int. lia.
  - cbn. lia.
  - reflexivity.
  - lia.
Defined.

(** X6.  The partitions are balanced up to the remainder: the task of
    index [k] starts at [k * chunk_size], where [chunk_size] is the size
    divided by the effective part count; every task but the last holds
    exactly [chunk_size] elements, and the last one, which ends at the end
    of the dataset, holds at least [chunk_size] and fewer than
    [chunk_size + parts] elements. *)
Theorem partitions_balanced e size param :
  1 <= size <= Int.max_int -> in_range e param ->
  exists parts chunk_size tasks,
    plan e size param = Some (parts, chunk_size) /\
    partitions e size param = Some tasks /\
    chunk_size = size / parts /\
    Z.of_nat (length tasks) = parts /\
    forall k t,
      nth_error tasks k = Some t ->
      fst t = Z.of_nat k * chunk_size /\
      (Z.of_nat k < parts - 1 -> task_length t = chunk_size) /\
      (Z.of_nat k = parts - 1 ->
       snd t = size /\ chunk_size <= task_length t < chunk_size + parts).
Proof.
  intros Hsize Hr.
  destruct (plan_bounds e size param Hsize Hr) as (p & c & Hplan & Hw & Hc & _).
  exists p, c. unfold partitions. rewrite Hplan. cbn [bind].
  eexists. split; [reflexivity|]. split; [reflexivity|]. split; [exact Hc|].
  pose proof Hw as (Hp & Hc1 & Hpc).
  split; [rewrite make_tasks_length; lia|].
  intros k t Hk.
  apply (make_tasks_nth size p c Hw (proj2 Hsize)) in Hk; [|lia|lia].
  rewrite Z.add_0_l in Hk. subst t. unfold task_length. cbn [fst snd].
  split; [reflexivity|]. split.
  - intros Hlt. destruct (Z.eqb_spec (Z.of_nat k) (p - 1)); lia.
  - intros ->. rewrite Z.eqb_refl. split; [reflexivity|].
    assert (Hmod : 0 <= size mod p < p) by (apply Z.mod_pos_bound; lia).
    assert (Hdiv : size = p * (size / p) + size mod p) by (apply Z.div_mod; lia).
    rewrite <- Hc in Hdiv. nia.
Qed.

Lemma partitions_balanced_witness :
  exists parts chunk_size tasks,
    plan PoolThreadPool 10 3 = Some (parts, chunk_size) /\
    partitions PoolThreadPool 10 3 = Some tasks /\
    chunk_size = 10 / parts /\
    Z.of_nat (length tasks) = parts /\
    forall k t,
      nth_error tasks k = Some t ->
      fst t = Z.of_nat k * chunk_size /\
      (Z.of_nat k < parts - 1 -> task_length t = chunk_size) /\
      (Z.of_nat k = parts - 1 ->
       snd t = 10 /\ chunk_size <= task_length t < chunk_size + parts).
Proof.
  apply (partitions_balanced PoolThreadPool 10 3).
  - unfold Int.max_int. lia.
  - cbn. lia.
Defined.

(** X7.  In the first program the depths 5 to 31 are indistinguishable:
    each requests more than 16 parts (or, at 31, a negative count), so the
    plan is the ceiling plan [min N 16] with chunk size [N / min N 16], and
    the tasks are those of depth 5. *)
Theorem dc_depths_saturate size splits :
  1 <= size <= Int.max_int -> 5 <= splits <= 31 ->
  Dc.plan size splits = Some (Z.min size 16, size / Z.min size 16) /\
  partitions DcDivideAndConquer size splits = partitions DcDivideAndConquer size 5.
Proof.
  intros Hsize Hs.
  assert (H : forall s, 5 <= s <= 31 ->
                        Dc.plan size s = Some (Z.min size 16, size / Z.min size 16)).
  { intros s Hs5. unfold Dc.plan, parts_of_splits.
    destruct (Z.eqb_spec s 0); [lia|]. cbv zeta.
    destruct (Z.eq_dec s 31) as [->|Hn31].
    - rewrite shl_one_31. rewrite int_div_min_int by lia.
      cbn [bind Z.eqb orb]. now apply dc_plan_clamped.
    - rewrite shl_one by lia.
      assert (H32 : 2 ^ 5 <= 2 ^ s) by (apply Z.pow_le_mono_r; lia).
      change (2 ^ 5) with 32 in H32.
      rewrite int_div_pos by lia. cbn [bind].
      destruct (Z.ltb_spec 16 (2 ^ s)); [|lia].
      rewrite orb_true_r. now apply dc_plan_clamped. }
  split; [now apply H|].
  unfold partitions. cbn [plan]. now rewrite (H splits Hs), (H 5) by lia.
Qed.

Lemma dc_depths_saturate_witness :
  Dc.plan 100 17 = Some (Z.min 100 16, 100 / Z.min 100 16) /\
  partitions DcDivideAndConquer 100 17 = partitions DcDivideAndConquer 100 5.
Proof.
  apply (dc_depths_saturate 100 17).
  - unfold Int.max_int. lia.
  - lia.
Defined.

(** ** One task *)

Section OneTask.

Context {D : Type} {num : Double D}.

Lemma scan_out_of_bounds (data : list D) :
  fits_int data ->
  forall n a l,
    (1 <= n)%nat -> (length data < a + n)%nat ->
    scan data n (Z.of_nat a) l = None.
Proof.
  intros Hfit. unfold fits_int, Int.max_int in Hfit.
  induction n as [|n IH]; intros a l Hn Han; [lia|].
  cbn [scan]. unfold at_index.
  destruct (Z.ltb_spec (Z.of_nat a) 0); [reflexivity|]. rewrite Nat2Z.id.
  destruct (nth_error data a) as [v|] eqn:Hv; [|reflexivity].
  assert (Ha : (a < length data)%nat) by (apply nth_error_Some; congruence).
  cbn [bind]. rewrite int_add_small by (unfold Int.min_int, Int.max_int; lia).
  replace (Z.of_nat a + 1) with (Z.of_nat (S a)) by lia.
  apply IH; lia.
Qed.

Lemma computeMetrics_sequential (data : list D) s e g :
  fits_int data -> 0 <= s <= e -> e <= Z.of_nat (length data) ->
  0 <= count g -> count g + (e - s) <= Int.max_int ->
  computeMetrics data (s, e) g =
  Some (plus g (sequential_from s (seg data (Z.to_nat s) (Z.to_nat (e - s)))
                                zero_totals)).
Proof.
  intros Hfit Hse He Hc0 Hc.
  rewrite computeMetrics_local, (local_totals_sequential data Hfit) by lia.
  unfold task_values. cbn [fst snd option_map]. rewrite merge_plus; [reflexivity|].
  rewrite sequential_from_count, seg_length
    by (unfold fits_int in Hfit; lia).
  cbn [count zero_totals]. unfold Int.min_int, Int.max_int in *. lia.
Qed.

End OneTask.

(** X8.  [computeMetrics] reads [data[i]] unchecked: in every arithmetic,
    on a vector whose size fits [int], a task is well defined exactly when
    its range is empty ([end <= start], the loop body never runs) or lies
    within the vector ([0 <= start] and [end <= size]); any other range
    reads outside the vector. *)
Theorem computeMetrics_defined_iff {D : Type} {num : Double D} (data : list D) s e g :
  fits_int data ->
  (computeMetrics data (s, e) g <> None <->
   e <= s \/ (0 <= s /\ e <= Z.of_nat (length data))).
Proof.
  intros Hfit. rewrite computeMetrics_local.
  split.
  - intros Hdef.
    destruct (Z.le_gt_cases e s) as [Hes|Hes]; [now left | right].
    unfold local_totals in Hdef. cbn [fst snd] in Hdef.
    destruct (Z.lt_ge_cases s 0) as [Hneg|Hpos].
    + exfalso. apply Hdef.
      destruct (Z.to_nat (e - s)) as [|n] eqn:En; [lia|].
      cbn [scan]. unfold at_index.
      destruct (Z.ltb_spec s 0); [reflexivity | lia].
    + split; [exact Hpos|].
      destruct (Z.le_gt_cases e (Z.of_nat (length data))) as [Hle|Hgt]; [exact Hle|].
      exfalso. apply Hdef.
      rewrite <- (Z2Nat.id s) at 2 by lia.
      rewrite scan_out_of_bounds; [reflexivity | exact Hfit | lia | lia].
  - intros [Hes|(Hs & He)].
    + unfold local_totals. cbn [fst snd].
      replace (Z.to_nat (e - s)) with O by lia. discriminate.
    + destruct (Z.le_gt_cases e s) as [Hes|Hes].
      * unfold local_totals. cbn [fst snd].
        replace (Z.to_nat (e - s)) with O by lia. discriminate.
      * rewrite (local_totals_sequential data Hfit) by lia. discriminate.
Qed.

Lemma computeMetrics_defined_iff_witness :
  computeMetrics [1%R; 2%R] (0, 3) zero_totals <> None <->
  3 <= 0 \/ (0 <= 0 /\ 3 <= Z.of_nat (length [1%R; 2%R])).
Proof.
  apply (computeMetrics_defined_iff [1%R; 2%R] 0 3 zero_totals).
  unfold fits_int, Int.max_int. cbn. lia.
Defined.

(** X9.  Over exact arithmetic, a task whose range is empty or reversed
    ([end <= start]) merges nothing: the shared accumulators, with a count
    within [int], are left as they were, wherever the range lies. *)
Theorem empty_range_merges_nothing (data : list R) s e g :
  e <= s -> Int.min_int <= count g <= Int.max_int ->
  computeMetrics data (s, e) g = Some g.
Proof.
  intros Hes Hc. unfold computeMetrics.
  replace (Z.to_nat (e - s)) with O by lia. cbn [scan bind]. f_equal.
  apply totals_eq; cbn [merge zero_totals log_sum sum diff_sum has_zero count];
    exact_arith; try lra.
  - apply orb_false_r.
  - unfold Int.add. rewrite Z.add_0_r. now apply wrap_small.
Qed.

Lemma empty_range_merges_nothing_witness :
  computeMetrics [1%R; 2%R] (7, 7)
    {| log_sum := 1%R; sum := 2%R; diff_sum := 3%R; has_zero := true; count := 4 |} =
  Some {| log_sum := 1%R; sum := 2%R; diff_sum := 3%R; has_zero := true; count := 4 |}.
Proof.
  apply (empty_range_merges_nothing [1%R; 2%R] 7 7).
  - lia.
  - unfold Int.min_int, Int.max_int. cbn. lia.
Defined.

(** X10.  Splitting a range changes nothing: two tasks over the adjacent
    ranges [[a, b)] and [[b, c)] of the vector, run one after the other,
    leave the shared accumulators as one task over [[a, c)] does (over
    exact arithmetic, while the count stays within [int]). *)
Theorem adjacent_ranges_compose (data : list R) a b c g :
  fits_int data -> 0 <= a <= b -> b <= c -> c <= Z.of_nat (length data) ->
  0 <= count g -> count g + (c - a) <= Int.max_int ->
  run_in_order data [(a, b); (b, c)] g = computeMetrics data (a, c) g.
Proof.
  intros Hfit Hab Hbc Hc Hg0 Hg.
  pose proof Hfit as Hb. unfold fits_int in Hb.
  cbn [run_in_order].
  rewrite (computeMetrics_sequential data a b g) by (try assumption; lia).
  cbn [bind].
  set (L1 := sequential_from a _ zero_totals).
  assert (HL1 : count L1 = b - a).
  { unfold L1. rewrite sequential_from_count, seg_length;
      cbn [count zero_totals]; lia. }
  rewrite (computeMetrics_sequential data b c)
    by (try assumption; cbn [plus count]; lia).
  cbn [bind].
  rewrite (computeMetrics_sequential data a c g) by (try assumption; lia).
  f_equal. rewrite plus_assoc. f_equal.
  replace (Z.to_nat (c - a)) with (Z.to_nat (b - a) + Z.to_nat (c - b))%nat by lia.
  rewrite seg_app, sequential_from_app, seg_length by lia.
  rewrite (sequential_from_plus _ _ L1).
  replace (a + Z.of_nat (Z.to_nat (b - a))) with b by lia.
  replace (Z.to_nat a + Z.to_nat (b - a))%nat with (Z.to_nat b) by lia.
  reflexivity.
Qed.

Lemma adjacent_ranges_compose_witness :
  run_in_order [5%R; 0%R; 7%R; 9%R] [(0, 1); (1, 4)] zero_totals =
  computeMetrics [5%R; 0%R; 7%R; 9%R] (0, 4) zero_totals.
Proof.
  apply (adjacent_ranges_compose [5%R; 0%R; 7%R; 9%R] 0 1 4 zero_totals).
  - unfold fits_int, Int.max_int. cbn. lia.
  - lia.
  - lia.
  - cbn. lia.
  - cbn. lia.
  - unfold Int.max_int. cbn. lia.
Defined.

(** ** The command line *)

Lemma dc_parse_inl opts :
  forall d d',
    DcMain.parse opts d = inl d' ->
    (forall o, In o opts -> exists v, o = OptD v /\ 0 <= v <= 32) /\
    (opts = [] -> d' = d) /\
    (opts <> [] -> last opts OptOther = OptD d').
Proof.
  induction opts as [|o opts IH]; intros d d' H; cbn [DcMain.parse] in H.
  - injection H as <-. repeat split; [intros o [] | congruence].
  - destruct o as [v| |]; try discriminate.
    destruct (Z.ltb_spec v 0) as [|Hlo]; [discriminate|].
    destruct (Z.ltb_spec 32 v) as [|Hhi]; [discriminate|]. cbn [orb] in H.
    destruct (IH _ _ H) as (Hall & Hnil & Hlast).
    split; [|split; [discriminate|]].
    + intros o [<-|Hin]; [exists v; split; [reflexivity | lia] | now apply Hall].
    + intros _. destruct opts as [|o' opts'].
      * cbn. now rewrite Hnil.
      * change (last (OptD v :: o' :: opts') OptOther)
          with (last (o' :: opts') OptOther).
        apply Hlast. discriminate.
Qed.

(** X11.  The first program runs only on a command line made of [-d]
    options, at least one, each with a value from 0 to 32: any other
    option, and any value out of range even if a later [-d] overrides it,
    ends [main] with status 1.  The depth used, and printed after
    "Hilos: ", is the value of the last option, and the count logged is
    [1 << depth] (1 for the depths 0 and 32). *)
Theorem dc_main_runs_only_on_depths {D : Type} {num : Double D} opts
    (data : list D) rep h :
  main FirstProgram opts data (Exit0 rep h) ->
  opts <> [] /\
  (forall o, In o opts -> exists v, o = OptD v /\ 0 <= v <= 32) /\
  last opts OptOther = OptD (rep_hilos rep) /\
  0 <= rep_hilos rep <= 32 /\
  rep_csv_threads rep = parts_of_splits (rep_hilos rep).
Proof.
  intros H. cbn [main] in H. unfold DcMain.main in H.
  destruct (DcMain.parse opts (-1)) as [d_val|msg] eqn:Hparse; [|discriminate].
  destruct (dc_parse_inl _ _ _ Hparse) as (Hall & Hnil & Hlast).
  destruct (Z.eqb_spec d_val (-1)) as [E|E]; [discriminate|].
  assert (Hne : opts <> []) by (intros Hn; apply E; now apply Hnil).
  specialize (Hlast Hne).
  assert (Hd : 0 <= d_val <= 32).
  { destruct (Hall (OptD d_val)) as (v & Hv & Hr).
    - rewrite <- Hlast. destruct (exists_last Hne) as (l & x & ->).
      rewrite last_last. apply in_or_app. right. now left.
    - now injection Hv as ->. }
  destruct H as ([h'|] & _ & H); [|discriminate].
  injection H as Hrep Hhist. subst rep. cbn [rep_hilos rep_csv_threads].
  repeat split; try assumption; try lia.
Qed.

Lemma dc_main_runs_only_on_depths_witness :
  let data := [1%R; 2%R; 3%R] in
  let rep := {| rep_strategy := "DivideConquer"; rep_hilos := 32;
                rep_metrics := sequential_metrics data; rep_csv_threads := 1 |} in
  [OptD 4; OptD 32] <> [] /\
  (forall o, In o [OptD 4; OptD 32] -> exists v, o = OptD v /\ 0 <= v <= 32) /\
  last [OptD 4; OptD 32] OptOther = OptD (rep_hilos rep) /\
  0 <= rep_hilos rep <= 32 /\
  rep_csv_threads rep = parts_of_splits (rep_hilos rep).
Proof.
  intros data rep.
  assert (Hne : data <> []) by discriminate.
  assert (Hfit : fits_int data) by (unfold fits_int, Int.max_int; cbn; lia).
  destruct (history_in_range DcDivideAndConquer data 32 Hne Hfit)
    as (tasks & _ & Hh); [cbn; lia |].
  apply (dc_main_runs_only_on_depths [OptD 4; OptD 32] data rep
           (repeat (sequential_outcome data tasks
                      (threads_of DcDivideAndConquer tasks)) RUNS)).
  apply main_iff. cbn [main_result]. unfold dc_main_result.
  change (DcMain.parse [OptD 4; OptD 32] (-1)) with (@inl Z string 32).
  change (32 =? -1) with false. cbv iota. rewrite Hh.
  change (parts_of_splits 32) with 1.
  unfold rep, RUNS. now rewrite last_metrics_repeat.
Defined.

Lemma pool_parse_inl opts :
  forall d p d' p',
    PoolMain.parse opts d p = inl (d', p') ->
    (forall v, In (OptD v) opts -> 0 <= v <= 5 /\ 0 <= d' <= 5) /\
    (forall v, In (OptP v) opts -> 1 <= v <= 32 /\ 1 <= p' <= 32) /\
    ((forall v, ~ In (OptD v) opts) -> d' = d) /\
    ((forall v, ~ In (OptP v) opts) -> p' = p).
Proof.
  induction opts as [|[v|v|] opts IH]; intros d p d' p' H; cbn [PoolMain.parse] in H.
  - injection H as <- <-.
    split; [intros v []|]. split; [intros v []|]. split; intros _; reflexivity.
  - destruct (Z.ltb_spec v 0) as [|Hlo]; [discriminate|].
    destruct (Z.ltb_spec 5 v) as [|Hhi]; [discriminate|]. cbn [orb] in H.
    pose proof (pool_parse_range _ _ _ _ _ H) as (Hd & _).
    destruct (IH _ _ _ _ H) as (HD & HP & HnD & HnP).
    split; [|split; [|split]].
    + intros w [E|Hin]; [|now apply HD].
      injection E as <-. split; [lia|]. destruct Hd as [->|Hd]; lia.
    + intros w [E|Hin]; [discriminate | now apply HP].
    + intros Hno. exfalso. apply (Hno v). now left.
    + intros Hno. apply HnP. intros w Hin. apply (Hno w). now right.
  - destruct (Z.ltb_spec v 1) as [|Hlo]; [discriminate|].
    destruct (Z.ltb_spec 32 v) as [|Hhi]; [discriminate|]. cbn [orb] in H.
    pose proof (pool_parse_range _ _ _ _ _ H) as (_ & Hp).
    destruct (IH _ _ _ _ H) as (HD & HP & HnD & HnP).
    split; [|split; [|split]].
    + intros w [E|Hin]; [discriminate | now apply HD].
    + intros w [E|Hin]; [|now apply HP].
      injection E as <-. split; [lia|]. destruct Hp as [->|Hp]; lia.
    + intros Hno. apply HnD. intros w Hin. apply (Hno w). now right.
    + intros Hno. exfalso. apply (Hno v). now left.
  - destruct (IH _ _ _ _ H) as (HD & HP & HnD & HnP).
    split; [|split; [|split]].
    + intros w [E|Hin]; [discriminate | now apply HD].
    + intros w [E|Hin]; [discriminate | now apply HP].
    + intros Hno. apply HnD. intros w Hin. apply (Hno w). now right.
    + intros Hno. apply HnP. intros w Hin. apply (Hno w). now right.
Qed.

Lemma has_d_dec opts :
  (exists v, In (OptD v) opts) \/ (forall v, ~ In (OptD v) opts).
Proof.
  induction opts as [|o opts [(v & Hv)|Hno]].
  - right. intros v [].
  - left. exists v. now right.
  - destruct o as [v|v|].
    + left. exists v. now left.
    + right. intros w [E|Hin]; [discriminate | now apply (Hno w)].
    + right. intros w [E|Hin]; [discriminate | now apply (Hno w)].
Qed.

Lemma has_p_dec opts :
  (exists v, In (OptP v) opts) \/ (forall v, ~ In (OptP v) opts).
Proof.
  induction opts as [|o opts [(v & Hv)|Hno]].
  - right. intros v [].
  - left. exists v. now right.
  - destruct o as [v|v|].
    + right. intros w [E|Hin]; [discriminate | now apply (Hno w)].
    + left. exists v. now left.
    + right. intros w [E|Hin]; [discriminate | now apply (Hno w)].
Qed.

(** X13.  The second program runs only when the command line gives one
    strategy: every [-d] value is from 0 to 5 and every [-p] value from 1
    to 32, also those a later option overrides, and either there is a [-d]
    and no [-p], and the strategy reported is "DivideConquer", or there is
    a [-p] and no [-d], and it is "ThreadPool".  With both, or neither,
    [main] ends with status 1. *)
Theorem pool_main_runs_one_strategy {D : Type} {num : Double D} opts
    (data : list D) rep h :
  main SecondProgram opts data (Exit0 rep h) ->
  (forall v, In (OptD v) opts -> 0 <= v <= 5) /\
  (forall v, In (OptP v) opts -> 1 <= v <= 32) /\
  (((exists v, In (OptD v) opts) /\ (forall v, ~ In (OptP v) opts) /\
    rep_strategy rep = "DivideConquer"%string) \/
   ((exists v, In (OptP v) opts) /\ (forall v, ~ In (OptD v) opts) /\
    rep_strategy rep = "ThreadPool"%string)).
Proof.
  intros H. cbn [main] in H. unfold PoolMain.main in H.
  destruct (PoolMain.parse opts (-1) (-1)) as [[d_val p_val]|msg] eqn:Hparse;
    [|discriminate].
  destruct (pool_parse_inl _ _ _ _ _ Hparse) as (HD & HP & HnD & HnP).
  split; [intros v Hv; now apply (HD v)|].
  split; [intros v Hv; now apply (HP v)|].
  destruct (Z.eqb_spec d_val (-1)) as [Ed|Ed];
    destruct (Z.eqb_spec p_val (-1)) as [Ep|Ep]; cbn [andb negb] in H;
    try discriminate.
  - right.
    destruct H as ([h'|] & _ & H); [|discriminate].
    injection H as Hrep _. subst rep. cbn [rep_strategy].
    split; [|split; [|reflexivity]].
    + destruct (has_p_dec opts) as [Hex|Hno]; [exact Hex|].
      exfalso. apply Ep. now apply HnP.
    + intros v Hv. destruct (HD v Hv) as (_ & Hd). lia.
  - left.
    destruct H as ([h'|] & _ & H); [|discriminate].
    injection H as Hrep _. subst rep. cbn [rep_strategy].
    split; [|split; [|reflexivity]].
    + destruct (has_d_dec opts) as [Hex|Hno]; [exact Hex|].
      exfalso. apply Ed. now apply HnD.
    + intros v Hv. destruct (HP v Hv) as (_ & Hp). lia.
Qed.

Lemma pool_main_runs_one_strategy_witness :
  let data := [1%R; 2%R; 3%R] in
  let rep := {| rep_strategy := "ThreadPool"; rep_hilos := 2;
                rep_metrics := sequential_metrics data; rep_csv_threads := 2 |} in
  (forall v, In (OptD v) [OptOther; OptP 7; OptP 2] -> 0 <= v <= 5) /\
  (forall v, In (OptP v) [OptOther; OptP 7; OptP 2] -> 1 <= v <= 32) /\
  (((exists v, In (OptD v) [OptOther; OptP 7; OptP 2]) /\
    (forall v, ~ In (OptP v) [OptOther; OptP 7; OptP 2]) /\
    rep_strategy rep = "DivideConquer"%string) \/
   ((exists v, In (OptP v) [OptOther; OptP 7; OptP 2]) /\
    (forall v, ~ In (OptD v) [OptOther; OptP 7; OptP 2]) /\
    rep_strategy rep = "ThreadPool"%string)).
Proof.
  intros data rep.
  assert (Hne : data <> []) by discriminate.
  assert (Hfit : fits_int data) by (unfold fits_int, Int.max_int; cbn; lia).
  destruct (history_in_range PoolThreadPool data 2 Hne Hfit)
    as (tasks & _ & Hh); [cbn; lia |].
  apply (pool_main_runs_one_strategy [OptOther; OptP 7; OptP 2] data rep
           (repeat (sequential_outcome data tasks
                      (threads_of PoolThreadPool tasks)) RUNS)).
  apply main_iff. cbn [main_result]. unfold pool_main_result.
  change (PoolMain.parse [OptOther; OptP 7; OptP 2] (-1) (-1))
    with (@inl (Z * Z) string (-1, 2)).
  change (-1 =? -1) with true. change (2 =? -1) with false.
  cbn [andb negb]. rewrite Hh.
  unfold rep, RUNS. now rewrite last_metrics_repeat.
Defined.
(** ** The harness *)

(** Over the exact reals, a harness that exits normally has run one
    executor, on a parameter of its range. *)
Lemma main_exit0_history p opts (data : list R) rep h :
  main_result p opts data = Exit0 rep h ->
  exists e param,
    in_range e param /\
    history_of e data param RUNS zero_metrics = Some h /\
    rep_metrics rep = last_metrics zero_metrics h.
Proof.
  destruct p; cbn [main_result]; unfold dc_main_result, pool_main_result.
  - destruct (DcMain.parse opts (-1)) as [d_val|msg] eqn:Hparse; [|discriminate].
    destruct (dc_parse_inl _ _ _ Hparse) as (Hall & Hnil & Hlast).
    destruct (Z.eqb_spec d_val (-1)) as [E|E]; [discriminate|].
    assert (Hne : opts <> []) by (intros Hn; apply E; now apply Hnil).
    specialize (Hlast Hne).
    assert (Hd : 0 <= d_val <= 32).
    { destruct (Hall (OptD d_val)) as (v & Hv & Hr).
      - rewrite <- Hlast. destruct (exists_last Hne) as (l & x & ->).
        rewrite last_last. apply in_or_app. right. now left.
      - now injection Hv as ->. }
    destruct (history_of DcDivideAndConquer data d_val RUNS zero_metrics)
      as [h'|] eqn:Hh; [|discriminate].
    intros H. injection H as Hrep Hhist. subst rep h'.
    exists DcDivideAndConquer, d_val. cbn [in_range rep_metrics].
    repeat split; try assumption; try lia.
  - destruct (PoolMain.parse opts (-1) (-1)) as [[d_val p_val]|msg] eqn:Hparse;
      [|discriminate].
    apply pool_parse_range in Hparse. destruct Hparse as (Hd & Hp).
    destruct (Z.eqb_spec d_val (-1)) as [Ed|Ed];
      destruct (Z.eqb_spec p_val (-1)) as [Ep|Ep]; cbn [andb negb];
      try discriminate.
    + destruct (history_of PoolThreadPool data p_val RUNS zero_metrics)
        as [h'|] eqn:Hh; [|discriminate].
      intros H. injection H as Hrep Hhist. subst rep h'.
      exists PoolThreadPool, p_val. cbn [in_range rep_metrics].
      repeat split; try assumption; destruct Hp; lia.
    + destruct (history_of PoolDivideAndConquer data d_val RUNS zero_metrics)
        as [h'|] eqn:Hh; [|discriminate].
      intros H. injection H as Hrep Hhist. subst rep h'.
      exists PoolDivideAndConquer, d_val. cbn [in_range rep_metrics].
      repeat split; try assumption; destruct Hd; lia.
Qed.

(** X14.  Over exact arithmetic, whatever the program, the strategy and
    the parameter given on the command line (the depth 32 of the first
    program included), a harness that exits normally on a non-empty dataset
    whose size fits [int] has made [RUNS] runs, each of which returned the
    metrics of the single-threaded pass without writing to [std::cerr],
    and it prints those metrics. *)
Theorem main_reports_sequential_metrics p opts (data : list R) rep h :
  data <> [] -> fits_int data ->
  main p opts data (Exit0 rep h) ->
  rep_metrics rep = sequential_metrics data /\
  length h = RUNS /\
  Forall (fun o => metrics o = sequential_metrics data /\ stderr o = []) h.
Proof.
  intros Hne Hfit H. apply main_iff in H. symmetry in H.
  destruct (main_exit0_history _ _ _ _ _ H) as (e & param & Hr & Hh & Hrep).
  destruct (history_in_range e data param Hne Hfit Hr) as (tasks & _ & Hall).
  rewrite Hall in Hh. injection Hh as <-.
  rewrite Hrep. split; [reflexivity|]. split; [reflexivity|].
  repeat (apply Forall_cons; [split; reflexivity|]). apply Forall_nil.
Qed.

Lemma main_reports_sequential_metrics_witness :
  let data := [1%R; 2%R; 3%R] in
  let rep := {| rep_strategy := "DivideConquer"; rep_hilos := 32;
                rep_metrics := sequential_metrics data; rep_csv_threads := 1 |} in
  let h := repeat (sequential_outcome data [(0, 3)] 0) RUNS in
  rep_metrics rep = sequential_metrics data /\
  length h = RUNS /\
  Forall (fun o => metrics o = sequential_metrics data /\ stderr o = []) h.
Proof.
  intros data rep h.
  assert (Hne : data <> []) by discriminate.
  assert (Hfit : fits_int data) by (unfold fits_int, Int.max_int; cbn; lia).
  destruct (history_in_range DcDivideAndConquer data 32 Hne Hfit)
    as (tasks & Hp & Hh); [cbn; lia |].
  vm_compute in Hp. injection Hp as <-.
  apply (main_reports_sequential_metrics FirstProgram [OptD 32] data rep h Hne Hfit).
  apply main_iff. cbn [main_result]. unfold dc_main_result.
  change (DcMain.parse [OptD 32] (-1)) with (@inl Z string 32).
  change (32 =? -1) with false. cbv iota. rewrite Hh.
  change (parts_of_splits 32) with 1.
  unfold rep, h, RUNS. now rewrite last_metrics_repeat.
Defined.

(** ** A single task *)

(** A request for one part, and a dataset of one element, give the one
    task [[0, N)]. *)
Lemma single_partition e size param :
  1 <= size <= Int.max_int -> in_range e param ->
  requested_parts e param = 1 \/ size = 1 ->
  partitions e size param = Some [(0, size)].
Proof.
  intros Hsize Hr Hone.
  destruct (plan_bounds e size param Hsize Hr) as (p & c & Hplan & Hw & Hc & _).
  assert (Hp1 : p = 1).
  { destruct Hone as [Hreq | Hlen].
    - assert (Hk : Pool.clamp size 1 = Some (1, size)).
      { unfold Pool.clamp. rewrite int_div_pos by lia. cbn [bind].
        rewrite Z.div_1_r. destruct (Z.eqb_spec size 0); [lia | reflexivity]. }
      destruct e; cbn [plan requested_parts] in Hplan, Hreq.
      + unfold Dc.plan in Hplan. rewrite Hreq in Hplan. cbv zeta in Hplan.
        rewrite int_div_pos in Hplan by lia. cbn [bind] in Hplan.
        rewrite Z.div_1_r in Hplan.
        destruct (Z.eqb_spec size 0); [lia|]. cbn in Hplan. congruence.
      + unfold Pool.plan in Hplan. rewrite Hreq in Hplan. congruence.
      + subst param. congruence.
    - destruct Hw as (H1 & H2 & H3). nia. }
  subst p. rewrite Z.div_1_r in Hc. subst c.
  unfold partitions. rewrite Hplan. cbn [bind].
  change (Z.to_nat 1) with 1%nat. cbn [make_tasks].
  change (Int.mul 0 size) with (Int.wrap 0).
  change (Int.sub 1 1) with 0. change (Int.wrap 0) with 0.
  reflexivity.
Qed.



(** X15.  [divideAndConquer] runs a single task on the calling thread: in
    every arithmetic, with depth 0, or on a dataset of one element
    whatever the depth, both programs return, having constructed the one
    task [[0, N)] and created no thread. *)
Theorem single_task_runs_on_caller {D : Type} {num : Double D} e (data : list D)
    param m0 :
  e <> PoolThreadPool ->
  data <> [] -> fits_int data -> in_range e param ->
  param = 0 \/ length data = 1%nat ->
  (exists o, run e data param m0 (Returned o)) /\
  forall res,
    run e data param m0 res ->
    exists o,
      res = Returned o /\
      planned o = [(0, Z.of_nat (length data))] /\ spawned o = O.
Proof.
  intros He Hne Hfit Hr Hone.
  destruct (run_flags e data param m0 Hne Hfit Hr) as (Hex & Hall).
  split; [exact Hex|]. intros res Hrun.
  destruct (Hall res Hrun) as (o & g & -> & _ & _ & _ & Hp & Hs & _).
  rewrite (single_partition e _ param) in Hp;
    [| now apply size_in_range | exact Hr |].
  - injection Hp as Hp. exists o. split; [reflexivity|].
    rewrite Hs, <- Hp. split; [reflexivity|].
    destruct e; [reflexivity | reflexivity | congruence].
  - destruct Hone as [-> | Hlen]; [left | right; lia].
    destruct e; [reflexivity | reflexivity | congruence].
Qed.

Lemma single_task_runs_on_caller_witness :
  (exists o, run DcDivideAndConquer [9%R] 7 zero_metrics (Returned o)) /\
  forall res,
    run DcDivideAndConquer [9%R] 7 zero_metrics res ->
    exists o,
      res = Returned o /\
      planned o = [(0, Z.of_nat (length [9%R]))] /\ spawned o = O.
Proof.
  apply (single_task_runs_on_caller DcDivideAndConquer [9%R] 7).
  - discriminate.
  - discriminate.
  - unfold fits_int, Int.max_int. cbn. lia.
  - cbn. lia.
  - right. reflexivity.
Defined.

(** ** The timing loop *)

Lemma fold_min_le durations :
  forall a, fold_left Z.min durations a <= a /\
            forall d, In d durations -> fold_left Z.min durations a <= d.
Proof.
  induction durations as [|x rest IH]; intros a; cbn [fold_left].
  - split; [lia | intros d []].
  - destruct (IH (Z.min a x)) as (Ha & Hall). split; [lia|].
    intros d [<-|Hin]; [lia | now apply Hall].
Qed.

Lemma fold_min_in durations :
  forall a, fold_left Z.min durations a = a \/ In (fold_left Z.min durations a) durations.
Proof.
  induction durations as [|x rest IH]; intros a; cbn [fold_left].
  - now left.
  - destruct (IH (Z.min a x)) as [E|Hin]; [|right; now right].
    rewrite E. destruct (Z.min_spec a x) as [(_ & ->)|(_ & ->)];
      [now left | right; now left].
Qed.

(** X16.  The time [main] reports is the minimum of the measured
    durations: when at least one run has been timed, and no duration
    exceeds the largest [long], the value left in [min_duration] is one of
    the durations and none is smaller. *)
Theorem min_duration_is_minimum durations :
  durations <> [] -> (forall d, In d durations -> d <= long_max) ->
  In (min_duration durations) durations /\
  forall d, In d durations -> min_duration durations <= d.
Proof.
  intros Hne Hmax. unfold min_duration.
  destruct (fold_min_le durations long_max) as (_ & Hle).
  split; [|exact Hle].
  destruct (fold_min_in durations long_max) as [E|Hin]; [|exact Hin].
  destruct durations as [|x rest]; [congruence|].
  assert (Hx : fold_left Z.min (x :: rest) long_max <= x) by (apply Hle; now left).
  specialize (Hmax x (or_introl eq_refl)).
  rewrite E in *. assert (x = long_max) by lia. subst x. now left.
Qed.

Lemma min_duration_is_minimum_witness :
  In (min_duration [412; 388; 401; 389; 395]) [412; 388; 401; 389; 395] /\
  forall d, In d [412; 388; 401; 389; 395] ->
            min_duration [412; 388; 401; 389; 395] <= d.
Proof.
  apply (min_duration_is_minimum [412; 388; 401; 389; 395]).
  - discriminate.
  - intros d Hd. unfold long_max. cbn in Hd.
    destruct Hd as [<-|[<-|[<-|[<-|[<-|[]]]]]]; lia.
Defined.
